(** * YouTube ETL pipeline: extraction and load stages

    A shallow embedding of [etl/extract.py] (the paginating Fetcher) and of
    [etl/load.py] (the Sink Writer and its Airflow wrapper), with the
    properties the specification states about them.

    Conventions.
    - Python [int] is [Z]; [len] is [Z.of_nat (length _)].
    - A value that may be [None] is an [option]; Python truthiness of such a
      value is spelled out ([truthy]).
    - The remote search API is an oracle.  One run of the Fetcher is
      deterministic given the answers it receives, so the oracle is the
      finite list of answers to its successive requests (a script); the
      requests themselves and the sleeps are recorded in a trace.
    - The database is a state that is passed along; a transaction that
      raises leaves it as it was.
    - Logging is left out: it changes neither results nor state. *)

From Stdlib Require Import ZArith Ascii String Bool Lia QArith List ListDec.
Import ListNotations.

Set Implicit Arguments.

(** ** Python idioms shared by both modules *)

Module Py.

(** [bool(s)] for an [Optional[str]]: [None] and the empty string are
    falsy. *)
Definition truthy (s : option string) : bool :=
  match s with
  | Some s => negb (String.eqb s EmptyString)
  | None => false
  end.

(** [a or b] on [Optional[str]]. *)
Definition or_else (a b : option string) : option string :=
  if truthy a then a else b.

(** [bool(l)] for a list: the empty list is falsy. *)
Definition nonempty {A} (l : list A) : bool :=
  match l with
  | [] => false
  | _ :: _ => true
  end.

(** [l[:stop]]: a negative [stop] counts from the end, and both ends are
    clamped to the list. *)
Definition slice_to {A} (l : list A) (stop : Z) : list A :=
  if (0 <=? stop)%Z then firstn (Z.to_nat stop) l
  else firstn (Z.to_nat (Z.of_nat (length l) + stop)) l.

(** [len(l)] *)
Definition len {A} (l : list A) : Z := Z.of_nat (length l).

End Py.

(** ** Python string methods used by the entry points

    A character is a code point below 256; the strings of the model are
    the Python strings made of such characters. *)

Module PyStr.

(** [c.isspace()] for a code point below 256: tab to carriage return, the
    four separators 28 to 31, space, next line (133) and no-break space
    (160). *)
Definition isspace (c : Ascii.ascii) : bool :=
  let n := Ascii.nat_of_ascii c in
  ((9 <=? n) && (n <=? 13) || (28 <=? n) && (n <=? 32)
   || (n =? 133) || (n =? 160))%nat.

(** [s.lstrip()] *)
Fixpoint lstrip (s : string) : string :=
  match s with
  | EmptyString => EmptyString
  | String c s' => if isspace c then lstrip s' else s
  end.

(** [s.rstrip()] *)
Fixpoint rstrip (s : string) : string :=
  match s with
  | EmptyString => EmptyString
  | String c s' =>
      match rstrip s' with
      | EmptyString => if isspace c then EmptyString else String c EmptyString
      | r => String c r
      end
  end.

(** [s.strip()] *)
Definition strip (s : string) : string := rstrip (lstrip s).

(** [s.split(sep)] for a separator of one character: the pieces between
    the separators, empty pieces included; never the empty list. *)
Fixpoint split (sep : Ascii.ascii) (s : string) : list string :=
  match s with
  | EmptyString => [EmptyString]
  | String c s' =>
      if Ascii.eqb c sep then EmptyString :: split sep s'
      else
        match split sep s' with
        | piece :: pieces => String c piece :: pieces
        | [] => [String c EmptyString]
        end
  end.

(** [s.replace(old, new)] for [old] and [new] of one character. *)
Fixpoint replace (old new : Ascii.ascii) (s : string) : string :=
  match s with
  | EmptyString => EmptyString
  | String c s' =>
      String (if Ascii.eqb c old then new else c) (replace old new s')
  end.

(** [bool(s)] for a string. *)
Definition nonblank (s : string) : bool := negb (String.eqb s EmptyString).

(** The character [c] occurs in [s]. *)
Fixpoint occurs (c : Ascii.ascii) (s : string) : bool :=
  match s with
  | EmptyString => false
  | String c' s' => Ascii.eqb c' c || occurs c s'
  end.

(** The first and the last character of a string, if any. *)
Definition first_char (s : string) : option Ascii.ascii :=
  match s with
  | EmptyString => None
  | String c _ => Some c
  end.

Fixpoint last_char (s : string) : option Ascii.ascii :=
  match s with
  | EmptyString => None
  | String c EmptyString => Some c
  | String _ s' => last_char s'
  end.

(** [[q.strip() for q in raw.split(",") if q.strip()]], the query list of
    [run_extract] and of the command line of [extract.py]. *)
Definition query_list_of (raw_queries : string) : list string :=
  map strip
    (filter (fun q => nonblank (strip q)) (split ","%char raw_queries)).

End PyStr.

(** ** Exceptions raised by the pipeline's own code or surfaced from the
    database driver *)

Inductive Exn : Type :=
| RuntimeError (msg : string)
| ValueError (msg : string)
| FileNotFoundError (path : string)
| TimeoutError (msg : string)          (* the request got no answer in time *)
| ProgrammingError (msg : string)      (* the server rejects the statement *)
| OperationalError (info : string)     (* no connection, or the statement cannot be run *)
| UndefinedTable (table : string)      (* relation does not exist *)
| NoArbiterConstraint                  (* ON CONFLICT target matches no unique constraint *)
| CardinalityViolation                 (* ON CONFLICT DO UPDATE cannot affect row a second time *)
| UniqueViolation (key : string).      (* duplicate key value violates unique constraint *)

(** * The Fetcher: [etl/extract.py] *)

Module Extract.

Import Py.

Definition DEFAULT_MAX_RESULTS_PER_QUERY : Z := 50.

(** Default values of the keyword parameters of
    [extract_videos_for_query]. *)
Definition default_max_total : Z := 100.
Definition default_sleep_between_pages : Q := 1.

(** The literal passed to [time.sleep] in the [except HttpError] branch. *)
Definition retry_cooldown : Q := 60.

(** The keyword arguments of [youtube.search().list(...)]. *)
Record Request : Type := {
  q : string;
  part : string;
  type_ : string;
  maxResults : Z;
  pageToken : option string;
  order : string
}.

(** What one run does to the outside world, in order. *)
Inductive Event : Type :=
| EvExecute (request : Request)   (* request.execute() *)
| EvSleep (seconds : Q).          (* time.sleep(seconds) *)

(** How a run ends: it returns, it raises, or it is still waiting for an
    answer the script does not contain. *)
Inductive Outcome (A : Type) : Type :=
| Returned (a : A)
| Raised (e : Exn)
| Pending.
Arguments Raised {A} e.
Arguments Pending {A}.

Record Run (A : Type) : Type := { outcome : Outcome A; trace : list Event }.

Definition after {A} (events : list Event) (r : Run A) : Run A :=
  {| outcome := outcome r; trace := events ++ trace r |}.

Definition map_outcome {A B} (f : A -> B) (r : Run A) : Run B :=
  {| outcome := match outcome r with
                | Returned a => Returned (f a)
                | Raised e => Raised e
                | Pending => Pending
                end;
     trace := trace r |}.

(** The page requests of a trace, in order. *)
Fixpoint requests (t : list Event) : list Request :=
  match t with
  | [] => []
  | EvExecute r :: t => r :: requests t
  | EvSleep _ :: t => requests t
  end.

(** The sleeps of a trace, in order. *)
Fixpoint sleeps (t : list Event) : list Q :=
  match t with
  | [] => []
  | EvExecute _ :: t => sleeps t
  | EvSleep s :: t => s :: sleeps t
  end.

Section Fetcher.

(** A raw search result: the Fetcher never looks inside it. *)
Context {Item : Type}.

(** The JSON object returned by [request.execute()]: either key may be
    missing. *)
Record Response : Type := {
  items : option (list Item);
  nextPageToken : option string
}.

(** What [request.execute()] comes back with: a response, an [HttpError],
    or any other exception (a timeout, a connection that breaks). *)
Inductive ApiResult : Type :=
| ApiResponse (response : Response)
| HttpError (e : string)
| OtherError (e : Exn).

(** [response.get("items", [])] *)
Definition get_items (response : Response) : list Item :=
  match items response with
  | Some l => l
  | None => []
  end.

(** [youtube.search().list(q=query, part="snippet", type="video",
    maxResults=..., pageToken=..., order="date")] *)
Definition search_list (query : string) (max_results : Z)
    (page_token : option string) : Request :=
  {| q := query; part := "snippet"; type_ := "video";
     maxResults := max_results; pageToken := page_token;
     order := "date" |}.

(** The [while len(collected) < max_total] loop, from the loop head, with
    the locals [collected] and [next_page_token] as arguments.  Every
    pass that enters the body issues exactly one request and consumes
    exactly one answer of the script.  The result is the final value of
    [collected]. *)
Fixpoint paginate (query : string) (max_total : Z)
    (sleep_between_pages : Q) (script : list ApiResult)
    (collected : list Item) (next_page_token : option string)
    : Run (list Item) :=
  if (len collected <? max_total)%Z then
    let request :=
      search_list query
        (Z.min DEFAULT_MAX_RESULTS_PER_QUERY (max_total - len collected))
        next_page_token in
    match script with
    | [] => {| outcome := Pending; trace := [EvExecute request] |}
    | HttpError e :: script' =>
        (* except HttpError: sleep 60 seconds, continue *)
        after [EvExecute request; EvSleep retry_cooldown]
          (paginate query max_total sleep_between_pages script'
             collected next_page_token)
    | OtherError e :: _ =>
        (* no except clause for it: the exception leaves the function *)
        {| outcome := Raised e; trace := [EvExecute request] |}
    | ApiResponse response :: script' =>
        let items := get_items response in
        if negb (nonempty items) then
          (* if not items: break *)
          {| outcome := Returned collected;
             trace := [EvExecute request] |}
        else
          let collected := collected ++ items in
          let next_page_token := nextPageToken response in
          if negb (truthy next_page_token) then
            (* if not next_page_token: break *)
            {| outcome := Returned collected;
               trace := [EvExecute request] |}
          else
            after [EvExecute request; EvSleep sleep_between_pages]
              (paginate query max_total sleep_between_pages script'
                 collected next_page_token)
    end
  else {| outcome := Returned collected; trace := [] |}.

(** [extract_videos_for_query(query, max_total, api_key,
    sleep_between_pages)], with the environment variable [YT_API_KEY]
    as [env_api_key] and the answers of the client that
    [get_youtube_client(api_key)] builds as [script]. *)
Definition extract_videos_for_query (env_api_key : option string)
    (script : list ApiResult) (query : string) (max_total : Z)
    (api_key : option string) (sleep_between_pages : Q)
    : Run (list Item) :=
  let api_key := or_else api_key env_api_key in
  if negb (truthy api_key) then
    {| outcome :=
         Raised (RuntimeError
           "YouTube API key not set. Provide --api_key or set YT_API_KEY env var.");
       trace := [] |}
  else
    map_outcome (fun collected => slice_to collected max_total)
      (paginate query max_total sleep_between_pages script [] None).

(** *** Vocabulary of the properties *)

(** A page answer carrying [l] and a continuation token. *)
Definition page (l : list Item) (token : option string) : ApiResult :=
  ApiResponse {| items := Some l; nextPageToken := token |}.

(** An answer ends the result set when it has no items or carries no
    continuation token: after it, the API has nothing more to serve. *)
Definition last_page (response : Response) : bool :=
  negb (nonempty (get_items response))
  || negb (truthy (nextPageToken response)).

(** The script reaches the end of the result set: it has an answer that
    ends it, and only pages and [HttpError]s before that answer. *)
Fixpoint ends_result_set (script : list ApiResult) : bool :=
  match script with
  | [] => false
  | HttpError _ :: script' => ends_result_set script'
  | OtherError _ :: _ => false
  | ApiResponse response :: script' =>
      last_page response || ends_result_set script'
  end.

(** The items of all the pages of a script, in order. *)
Fixpoint all_items (script : list ApiResult) : list Item :=
  match script with
  | [] => []
  | HttpError _ :: script' => all_items script'
  | OtherError _ :: script' => all_items script'
  | ApiResponse response :: script' => get_items response ++ all_items script'
  end.

(** No answer of the script ends the result set. *)
Fixpoint more_to_come (script : list ApiResult) : bool :=
  match script with
  | [] => true
  | HttpError _ :: script' => more_to_come script'
  | OtherError _ :: _ => false
  | ApiResponse response :: script' =>
      negb (last_page response) && more_to_come script'
  end.

(** The number of items the API has for the query: the sizes of the pages
    it serves, errors skipped, up to and including the page that ends the
    result set. *)
Fixpoint total_available (script : list ApiResult) : Z :=
  match script with
  | [] => 0
  | HttpError _ :: script' => total_available script'
  | OtherError _ :: _ => 0
  | ApiResponse response :: script' =>
      if last_page response then len (get_items response)
      else len (get_items response) + total_available script'
  end.

(** The three conditions that end pagination, for a page received with
    [collected] in hand: the page is empty, or it carries no continuation
    token, or with its items the count reaches [max_total]. *)
Definition stops (max_total : Z) (collected : list Item)
    (response : Response) : bool :=
  negb (nonempty (get_items response))
  || negb (truthy (nextPageToken response))
  || (max_total <=? len (collected ++ get_items response))%Z.

(** None of the answers of the script, received one after the other from
    [collected] on, meets one of the three conditions, and none is another
    exception. *)
Fixpoint keeps_going (max_total : Z) (collected : list Item)
    (script : list ApiResult) : bool :=
  match script with
  | [] => true
  | HttpError _ :: script' => keeps_going max_total collected script'
  | OtherError _ :: _ => false
  | ApiResponse response :: script' =>
      negb (stops max_total collected response)
      && keeps_going max_total (collected ++ get_items response) script'
  end.

(** The sleep that follows each answer when the run goes on after it: the
    cooldown after an [HttpError], the inter-page delay after a page. *)
Fixpoint pauses (sleep_between_pages : Q) (script : list ApiResult)
    : list Q :=
  match script with
  | [] => []
  | HttpError _ :: script' =>
      retry_cooldown :: pauses sleep_between_pages script'
  | OtherError _ :: _ => []
  | ApiResponse _ :: script' =>
      sleep_between_pages :: pauses sleep_between_pages script'
  end.

(** The request the loop issues from the state [collected],
    [next_page_token]. *)
Definition request_at (query : string) (max_total : Z)
    (collected : list Item) (next_page_token : option string) : Request :=
  search_list query
    (Z.min DEFAULT_MAX_RESULTS_PER_QUERY (max_total - len collected))
    next_page_token.

End Fetcher.

Arguments Response : clear implicits.
Arguments ApiResult : clear implicits.

End Extract.

(** * The entry points of [etl/extract.py] *)

Module ExtractRun.

Import Py PyStr Extract.

Section Runner.

Context {Item : Type}.

(** What the module gets from outside.
    - [YT_API_KEY]: the environment variable of that name;
    - [answers k]: the answers of the API during the call number [k] of
      [extract_videos_for_query];
    - [utcnow k]: [datetime.utcnow().strftime("%Y-%m-%dT%H-%M-%SZ")] at the
      call number [k] of [save_response];
    - [raw_path name]: [RAW_DATA_DIR / name], as a string;
    - [can_open path]: whether [open(path, "w")] succeeds; it does not when
      the name carries a directory that does not exist. *)
Record Env : Type := {
  YT_API_KEY : option string;
  answers : nat -> list (ApiResult Item);
  utcnow : nat -> string;
  raw_path : string -> string;
  can_open : string -> bool
}.

(** The state the module runs against: the files written (the latest write
    first), the XCom values pushed (the latest first), the trace of the
    requests and sleeps, and how many fetches and saves there have been. *)
Record World : Type := {
  files : list (string * list Item);
  xcom : list (string * list string);
  events : list Event;
  fetches : nat;
  saves : nat
}.

(** The content of a file: what the latest write to its path left. *)
Fixpoint read_file (path : string) (written : list (string * list Item))
    : option (list Item) :=
  match written with
  | [] => None
  | (p, data) :: written' =>
      if String.eqb p path then Some data else read_file path written'
  end.

(** Effects: state, exceptions, and runs that wait for the API. *)
Definition X (A : Type) : Type := World -> Outcome A * World.

Definition bindx {A B} (m : X A) (k : A -> X B) : X B :=
  fun w =>
    match m w with
    | (Returned a, w') => k a w'
    | (Raised e, w') => (Raised e, w')
    | (Pending, w') => (Pending, w')
    end.

(** The name of the file of a query saved at [date_str]:
    [f"{date_str}_{query.replace(' ', '_')}.json"]. *)
Definition file_name (date_str query : string) : string :=
  (date_str ++ "_" ++ replace " " "_" query ++ ".json")%string.

(** [save_response(data, query)] *)
Definition save_response (env : Env) (data : list Item) (query : string)
    : X string :=
  fun w =>
    let date_str := utcnow env (saves w) in
    let filename := raw_path env (file_name date_str query) in
    if can_open env filename then
      (Returned filename,
       {| files := (filename, data) :: files w;
          xcom := xcom w;
          events := events w;
          fetches := fetches w;
          saves := S (saves w) |})
    else
      (Raised (FileNotFoundError filename),
       {| files := files w;
          xcom := xcom w;
          events := events w;
          fetches := fetches w;
          saves := S (saves w) |}).

(** A call [extract_videos_for_query(query, max_total=max_total,
    api_key=api_key)] from an entry point: the inter-page delay is left at
    its default. *)
Definition fetch (env : Env) (query : string) (max_total : Z)
    (api_key : option string) : X (list Item) :=
  fun w =>
    let run :=
      extract_videos_for_query (YT_API_KEY env) (answers env (fetches w))
        query max_total api_key default_sleep_between_pages in
    (outcome run,
     {| files := files w;
        xcom := xcom w;
        events := events w ++ trace run;
        fetches := S (fetches w);
        saves := saves w |}).

(** [context["ti"].xcom_push(key=key, value=value)] *)
Definition xcom_push (key : string) (value : list string) : X unit :=
  fun w =>
    (Returned tt,
     {| files := files w;
        xcom := (key, value) :: xcom w;
        events := events w;
        fetches := fetches w;
        saves := saves w |}).

(** The loop of [run_extract], with the local [paths] as argument:
    [[
    for query in query_list:
        items = extract_videos_for_query(query, max_total=..., api_key=...)
        output_path = save_response(items, query)
        paths.append(str(output_path))
    ]] *)
Fixpoint extract_and_save (env : Env) (max_total : Z)
    (api_key : option string) (query_list : list string)
    (paths : list string) : X (list string) :=
  match query_list with
  | [] => fun w => (Returned paths, w)
  | query :: query_list' =>
      bindx (fetch env query max_total api_key) (fun items =>
      bindx (save_response env items query) (fun output_path =>
      extract_and_save env max_total api_key query_list'
        (paths ++ [output_path])))
  end.

(** The entries of [params] that [run_extract] reads, [None] when
    missing; [max_total] is an int. *)
Record Context : Type := {
  params_query : option string;
  params_max_total : option Z;
  params_api_key : option string
}.

(** [run_extract(context)] *)
Definition run_extract (env : Env) (context : Context) : X unit :=
  let raw_queries :=
    match params_query context with
    | Some raw => raw
    | None => "music"%string
    end in
  let query_list := query_list_of raw_queries in
  let max_total :=
    match params_max_total context with
    | Some n => n
    | None => 100%Z
    end in
  let api_key := or_else (params_api_key context) (YT_API_KEY env) in
  bindx (extract_and_save env max_total api_key query_list []) (fun paths =>
  xcom_push "raw_paths" paths).

(** The arguments of the command line: [--query] (required),
    [--max_results] (default 100) and [--api_key]. *)
Record Args : Type := {
  args_query : string;
  args_max_results : Z;
  args_api_key : option string
}.

(** The loop under [try:] in the main block:
    [[
    for query in query_list:
        videos = extract_videos_for_query(query=query, max_total=..., api_key=...)
        save_response(videos, query)
    ]] *)
Fixpoint main_loop (env : Env) (args : Args) (query_list : list string)
    : X unit :=
  match query_list with
  | [] => fun w => (Returned tt, w)
  | query :: query_list' =>
      bindx (fetch env query (args_max_results args) (args_api_key args))
        (fun videos =>
      bindx (save_response env videos query) (fun _ =>
      main_loop env args query_list'))
  end.

(** The main block: the exit status of the process, 1 when the loop
    raised ([sys.exit(1)]), 0 when it ran to its end. *)
Definition main (env : Env) (args : Args) : X Z :=
  fun w =>
    match main_loop env args (query_list_of (args_query args)) w with
    | (Returned _, w') => (Returned 0%Z, w')
    | (Raised _, w') => (Returned 1%Z, w')
    | (Pending, w') => (Pending, w')
    end.

(** *** Vocabulary of the properties *)

(** The items of the pages of a script up to and including the page that
    ends the result set. *)
Fixpoint available_items (script : list (ApiResult Item)) : list Item :=
  match script with
  | [] => []
  | HttpError _ :: script' => available_items script'
  | OtherError _ :: _ => []
  | ApiResponse response :: script' =>
      if last_page response then get_items response
      else get_items response ++ available_items script'
  end.

(** A trace is paced when it never has two requests without a sleep in
    between and never sleeps twice in a row. *)
Fixpoint paced (t : list Event) : bool :=
  match t with
  | [] => true
  | EvExecute _ :: t' =>
      match t' with
      | [] => true
      | EvSleep _ :: t'' => paced t''
      | EvExecute _ :: _ => false
      end
  | EvSleep _ :: _ => false
  end.

(** A path names a file that has been written. *)
Definition written (w : World) (path : string) : Prop :=
  read_file path (files w) <> None.

End Runner.

Arguments Env : clear implicits.
Arguments World : clear implicits.

End ExtractRun.

(** * The Sink Writer: [etl/load.py] *)

Module Load.

Import Py.

Definition TABLE_NAME : string := "youtube_videos".
Definition CHUNK_SIZE : Z := 10000.

(** The local [temp_table] of [load_csv]. *)
Definition temp_table : string := "_tmp_youtube_load".

(** ** Data *)

(** A point in time, as the database stores it. *)
Definition Timestamp : Type := Z.

(** The six columns that the DDL of [ensure_table] declares and the merge
    statement of [load_csv] selects from the staged frame, with the type of
    the [published_at] cell left open: text in the CSV file, a timestamp or
    NaT/NULL once [pd.to_datetime(..., errors="coerce")] has run.  Every
    frame has these columns, so the test ["published_at" in df.columns] of
    [load_csv] holds.  [video_id] is never NULL. *)
Record Rec (T : Type) : Type := {
  video_id : string;
  title : string;
  channel_title : string;
  published_at : T;
  description : string;
  query_tag : string
}.
Arguments video_id {T} r.
Arguments title {T} r.
Arguments channel_title {T} r.
Arguments published_at {T} r.
Arguments description {T} r.
Arguments query_tag {T} r.

(** A row of a CSV file as [pd.read_csv] returns it.  An empty field is a
    missing value (NaN), for which the empty string stands here. *)
Definition CsvRow : Type := Rec string.

(** A row of the frame that is written to the database. *)
Definition DfRow : Type := Rec (option Timestamp).

(** A row of [youtube_videos]: the six columns and [loaded_at] (NULL when
    the table has no such column). *)
Record Row : Type := {
  cols : DfRow;
  loaded_at : option Timestamp
}.

(** How [youtube_videos] came to exist.
    - [Ensured]: by the DDL of [ensure_table], with [video_id TEXT PRIMARY
      KEY] and [loaded_at TIMESTAMP DEFAULT NOW()].
    - [Inferred]: by [DataFrame.to_sql], which creates a missing table from
      the frame: its six columns, no constraint, no [loaded_at]. *)
Inductive Schema : Type := Ensured | Inferred.

(** The rows are listed in the order in which they were inserted; the
    table itself has no row order, and no statement of the module reads
    one. *)
Record Table : Type := {
  schema : Schema;
  rows : list Row
}.

(** The two tables the module touches; [None] is a table that does not
    exist. *)
Record Database : Type := {
  youtube_videos : option Table;
  tmp_youtube_load : option (list DfRow)
}.

(** [engine.dialect.name] *)
Record Dialect : Type := { name : string }.
Record Engine : Type := { dialect : Dialect }.

(** What reaches the database server, in order. *)
Inductive DbEvent : Type :=
| EvConnect (db_url : string)
| EvBegin
| EvCommit
| EvRollback.

(** The state the module runs against: the database, the number of
    transactions begun so far, and the journal of what reached the
    server. *)
Record World : Type := {
  database : Database;
  transactions : nat;
  journal : list DbEvent
}.

(** What the module gets from outside.
    - [read_csv path]: the rows of the file, [None] when it cannot be read;
    - [parse_datetime column cell]: the timestamp that the parser of
      [pd.to_datetime] reads in one cell of a column, [None] when it cannot
      read the cell; how a cell is read depends on the column it stands in,
      from whose values the format is guessed;
    - [create_engine db_url]: the engine of a database that accepts
      connections, [None] when the connection test fails;
    - [ddl_error dialect_name]: what the server of a dialect other than
      PostgreSQL and SQLite makes of the DDL of [ensure_table], [None] when
      it runs it and the exception it raises otherwise;
    - [clock k]: the value of [NOW()] in the transaction number [k]. *)
Record Env : Type := {
  read_csv : string -> option (list CsvRow);
  parse_datetime : list string -> string -> option Timestamp;
  create_engine : string -> option Engine;
  ddl_error : string -> option Exn;
  clock : nat -> Timestamp
}.

(** The environment with another timestamp parser. *)
Definition with_parser (env : Env)
    (parse : list string -> string -> option Timestamp) : Env :=
  {| read_csv := read_csv env;
     parse_datetime := parse;
     create_engine := create_engine env;
     ddl_error := ddl_error env;
     clock := clock env |}.

(** ** Effects: state and exceptions *)

Definition M (A : Type) : Type := World -> (Exn + A) * World.

Definition ret {A} (a : A) : M A := fun w => (inr a, w).

Definition raise {A} (e : Exn) : M A := fun w => (inl e, w).

Definition bind {A B} (m : M A) (k : A -> M B) : M B :=
  fun w =>
    match m w with
    | (inl e, w') => (inl e, w')
    | (inr a, w') => k a w'
    end.

Notation "x <- m ;; k" := (bind m (fun x => k))
  (at level 61, m at next level, right associativity).
Notation "m ;; k" := (bind m (fun _ => k))
  (at level 61, right associativity).

(** [for x in l: body(x)] *)
Fixpoint for_each {A} (l : list A) (body : A -> M unit) : M unit :=
  match l with
  | [] => ret tt
  | x :: l' => body x ;; for_each l' body
  end.

(** A statement run on a connection inside a transaction. *)
Definition Tx : Type := Database -> Exn + Database.

Definition and_then (s1 s2 : Tx) : Tx :=
  fun db =>
    match s1 db with
    | inl e => inl e
    | inr db' => s2 db'
    end.

(** [with engine.begin() as conn: body]: commit when the body ends, roll
    back and re-raise when it raises.  The body is given the transaction's
    [NOW()]. *)
Definition begin (env : Env) (body : Timestamp -> Tx) : M unit :=
  fun w =>
    match body (clock env (transactions w)) (database w) with
    | inr db =>
        (inr tt,
         {| database := db;
            transactions := S (transactions w);
            journal := journal w ++ [EvBegin; EvCommit] |})
    | inl e =>
        (inl e,
         {| database := database w;
            transactions := S (transactions w);
            journal := journal w ++ [EvBegin; EvRollback] |})
    end.

(** ** Rows and keys *)

Definition key (row : Row) : string := video_id (cols row).

Definition has_key (k : string) (rows : list Row) : bool :=
  existsb (fun row => String.eqb (key row) k) rows.

(** The rows of a table with a given [video_id]. *)
Definition rows_with_key (k : string) (rows : list Row) : list Row :=
  filter (fun row => String.eqb (key row) k) rows.

(** ** SQL statements *)

(** [CREATE TABLE IF NOT EXISTS youtube_videos (...)] *)
Definition create_table_if_not_exists : Tx :=
  fun db =>
    match youtube_videos db with
    | Some _ => inr db
    | None =>
        inr {| youtube_videos := Some {| schema := Ensured; rows := [] |};
               tmp_youtube_load := tmp_youtube_load db |}
    end.

(** [df.to_sql(temp_table, conn, index=False, if_exists="replace",
    chunksize=CHUNK_SIZE)]: the staging table is dropped if it exists and
    created anew with the rows of the frame.  The chunk size only groups the
    INSERTs. *)
Definition to_sql_temp_table (df : list DfRow) : Tx :=
  fun db =>
    inr {| youtube_videos := youtube_videos db;
           tmp_youtube_load := Some df |}.

(** [SET title = EXCLUDED.title, channel_title = EXCLUDED.channel_title,
    published_at = EXCLUDED.published_at, description =
    EXCLUDED.description, query_tag = EXCLUDED.query_tag]: the five columns
    of the SET list take the proposed values; [video_id] and [loaded_at],
    which the list does not name, keep theirs. *)
Definition do_update (excluded : DfRow) (row : Row) : Row :=
  {| cols :=
       {| video_id := video_id (cols row);
          title := title excluded;
          channel_title := channel_title excluded;
          published_at := published_at excluded;
          description := description excluded;
          query_tag := query_tag excluded |};
     loaded_at := loaded_at row |}.

(** The update applied to the rows that conflict with the proposed row
    [r], those with its [video_id]. *)
Definition update_conflicting (r : DfRow) (row : Row) : Row :=
  if String.eqb (key row) (video_id r) then do_update r row else row.

(** A row inserted through a column list without [loaded_at] into the
    table of [ensure_table]: [loaded_at] takes its default, [NOW()]. *)
Definition insert_default (now : Timestamp) (r : DfRow) : Row :=
  {| cols := r; loaded_at := Some now |}.

(** A row inserted into a table that [to_sql] created: there is no
    [loaded_at]. *)
Definition insert_plain (r : DfRow) : Row :=
  {| cols := r; loaded_at := None |}.

(** [INSERT INTO youtube_videos (...) SELECT ... FROM _tmp_youtube_load
    ON CONFLICT (video_id) DO UPDATE SET ...] on the rows of a table with
    the primary key, one proposed row after the other.  A proposed row whose
    key is not in the table is inserted; one whose key is there updates
    that row.  PostgreSQL does not let one such command touch a row twice:
    when the conflicting row was inserted or updated by this same command
    ([affected]), the command fails with a cardinality violation ("ON
    CONFLICT DO UPDATE command cannot affect row a second time"). *)
Fixpoint insert_on_conflict_do_update (now : Timestamp)
    (proposed : list DfRow) (affected : list string) (rows : list Row)
    : Exn + list Row :=
  match proposed with
  | [] => inr rows
  | r :: proposed' =>
      if has_key (video_id r) rows then
        if existsb (String.eqb (video_id r)) affected then
          inl CardinalityViolation
        else
          insert_on_conflict_do_update now proposed'
            (video_id r :: affected)
            (map (update_conflicting r) rows)
      else
        insert_on_conflict_do_update now proposed'
          (video_id r :: affected)
          (rows ++ [insert_default now r])
  end.

(** What the command does to the rows when no proposed row meets a row
    the command has already touched. *)
Definition upsert_one (now : Timestamp) (r : DfRow) (rows : list Row)
    : list Row :=
  if has_key (video_id r) rows then map (update_conflicting r) rows
  else rows ++ [insert_default now r].

Definition upsert_all (now : Timestamp) (proposed : list DfRow)
    (rows : list Row) : list Row :=
  fold_left (fun rows r => upsert_one now r rows) proposed rows.

(** [conn.execute(merge_sql)] *)
Definition merge_sql (now : Timestamp) : Tx :=
  fun db =>
    match youtube_videos db, tmp_youtube_load db with
    | None, _ => inl (UndefinedTable TABLE_NAME)
    | Some _, None => inl (UndefinedTable temp_table)
    | Some t, Some staged =>
        match schema t with
        | Inferred => inl NoArbiterConstraint
        | Ensured =>
            match insert_on_conflict_do_update now staged [] (rows t) with
            | inl e => inl e
            | inr rows' =>
                inr {| youtube_videos :=
                         Some {| schema := Ensured; rows := rows' |};
                       tmp_youtube_load := tmp_youtube_load db |}
            end
        end
    end.

(** [conn.execute(text(f"DROP TABLE {temp_table}"))] *)
Definition drop_temp_table : Tx :=
  fun db =>
    match tmp_youtube_load db with
    | None => inl (UndefinedTable temp_table)
    | Some _ =>
        inr {| youtube_videos := youtube_videos db;
               tmp_youtube_load := None |}
    end.

(** Plain [INSERT]s of the rows of a frame, one after the other.  On the
    table of [ensure_table] the primary key rejects a row whose key is
    already there, and [loaded_at] takes its default; on a table that
    [to_sql] created every row is added. *)
Fixpoint insert_rows (now : Timestamp) (s : Schema) (df : list DfRow)
    (rows : list Row) : Exn + list Row :=
  match df with
  | [] => inr rows
  | r :: df' =>
      match s with
      | Ensured =>
          if has_key (video_id r) rows then inl (UniqueViolation (video_id r))
          else insert_rows now s df' (rows ++ [insert_default now r])
      | Inferred => insert_rows now s df' (rows ++ [insert_plain r])
      end
  end.

(** [df.to_sql(TABLE_NAME, conn, index=False, if_exists=if_exists)]:
    a missing table is created from the frame; an existing one is kept
    (["append"]), dropped and created anew (["replace"]) or refused
    (["fail"]). *)
Definition to_sql_table (now : Timestamp) (df : list DfRow)
    (if_exists : string) : Tx :=
  fun db =>
    let store t :=
      {| youtube_videos := Some t;
         tmp_youtube_load := tmp_youtube_load db |} in
    let create :=
      inr (store {| schema := Inferred; rows := map insert_plain df |}) in
    if String.eqb if_exists "append" then
      match youtube_videos db with
      | None => create
      | Some t =>
          match insert_rows now (schema t) df (rows t) with
          | inl e => inl e
          | inr rows' => inr (store {| schema := schema t; rows := rows' |})
          end
      end
    else if String.eqb if_exists "replace" then create
    else if String.eqb if_exists "fail" then
      match youtube_videos db with
      | None => create
      | Some _ => inl (ValueError "Table 'youtube_videos' already exists.")
      end
    else inl (ValueError ("'" ++ if_exists ++ "' is not valid for if_exists")).

(** The rows of [youtube_videos], none when the table does not exist. *)
Definition table_rows (db : Database) : list Row :=
  match youtube_videos db with
  | Some t => rows t
  | None => []
  end.

Definition destination (w : World) : list Row := table_rows (database w).

(** The primary key of the table of [ensure_table]: at most one row per
    [video_id]. *)
Definition primary_key_holds (db : Database) : Prop :=
  match youtube_videos db with
  | Some t => schema t = Ensured -> NoDup (map key (rows t))
  | None => True
  end.

(** The row that a plain [INSERT] adds to a table of the given schema. *)
Definition inserted (now : Timestamp) (s : Schema) (r : DfRow) : Row :=
  match s with
  | Ensured => insert_default now r
  | Inferred => insert_plain r
  end.

(** ** The functions of [load.py] *)

(** [get_engine(db_url)]: the engine, once the connection test has passed;
    a failure is logged and raised again. *)
Definition get_engine (env : Env) (db_url : string) : M Engine :=
  fun w =>
    let w' :=
      {| database := database w;
         transactions := transactions w;
         journal := journal w ++ [EvConnect db_url] |} in
    match create_engine env db_url with
    | Some engine => (inr engine, w')
    | None => (inl (OperationalError db_url), w')
    end.

(** What the server makes of the DDL of [ensure_table], whether the table
    exists or not: [None] when it runs it.  The DDL is written for
    PostgreSQL.  SQLite does not parse it: a default that is a function
    call has to stand in parentheses, so [DEFAULT NOW()] is a syntax
    error.  Of the other dialects the environment tells. *)
Definition ddl_rejected (env : Env) (engine : Engine) : option Exn :=
  let dialect_name := name (dialect engine) in
  if String.eqb dialect_name "postgresql" then None
  else if String.eqb dialect_name "sqlite" then
    Some (OperationalError "near (: syntax error")
  else ddl_error env dialect_name.

(** [conn.execute(text(ddl))] *)
Definition execute_ddl (env : Env) (engine : Engine) : Tx :=
  fun db =>
    match ddl_rejected env engine with
    | Some e => inl e
    | None => create_table_if_not_exists db
    end.

(** [ensure_table(engine)] *)
Definition ensure_table (env : Env) (engine : Engine) : M unit :=
  begin env (fun _ => execute_ddl env engine).

(** The [errors] argument of [pd.to_datetime]: ["raise"], its default, or
    ["coerce"]. *)
Inductive Errors : Type := ErrorsRaise | ErrorsCoerce.

(** A missing value of a column read by [pd.read_csv]. *)
Definition isna (cell : string) : bool :=
  match cell with
  | EmptyString => true
  | String _ _ => false
  end.

(** What [pd.to_datetime] makes of one cell of the column [arg]: a missing
    value becomes NaT; a value that the parser reads becomes its timestamp;
    a value that it cannot read raises under [errors="raise"] and is set
    to NaT under [errors="coerce"] ("invalid parsing will be set as NaT",
    in the words of its documentation). *)
Definition to_datetime_cell (env : Env) (arg : list string)
    (errors : Errors) (cell : string) : Exn + option Timestamp :=
  if isna cell then inr None
  else
    match parse_datetime env arg cell with
    | Some t => inr (Some t)
    | None =>
        match errors with
        | ErrorsCoerce => inr None
        | ErrorsRaise =>
            inl (ValueError
                   ("Unknown datetime string format, unable to parse: "
                    ++ cell))
        end
    end.

(** The cells of a column converted one after the other; the first
    exception ends the conversion. *)
Fixpoint convert_cells (convert : string -> Exn + option Timestamp)
    (cells : list string) : Exn + list (option Timestamp) :=
  match cells with
  | [] => inr []
  | cell :: cells' =>
      match convert cell with
      | inl e => inl e
      | inr value =>
          match convert_cells convert cells' with
          | inl e => inl e
          | inr values => inr (value :: values)
          end
      end
  end.

(** [pd.to_datetime(arg, errors=errors)] on a column of strings. *)
Definition to_datetime (env : Env) (arg : list string) (errors : Errors)
    : Exn + list (option Timestamp) :=
  convert_cells (to_datetime_cell env arg errors) arg.

(** A row with its [published_at] cell replaced. *)
Definition set_published_at {T U} (r : Rec T) (value : U) : Rec U :=
  {| video_id := video_id r;
     title := title r;
     channel_title := channel_title r;
     published_at := value;
     description := description r;
     query_tag := query_tag r |}.

(** [df["published_at"] = column] *)
Definition assign_published_at (df : list CsvRow)
    (column : list (option Timestamp)) : list DfRow :=
  map (fun cell => set_published_at (fst cell) (snd cell)) (combine df column).

(** The block under [with engine.begin() as conn:] in [load_csv]. *)
Definition load_csv_body (engine : Engine) (if_exists : string)
    (df : list DfRow) (now : Timestamp) : Tx :=
  if String.eqb (name (dialect engine)) "postgresql" then
    and_then (to_sql_temp_table df)
      (and_then (merge_sql now) drop_temp_table)
  else
    to_sql_table now df if_exists.

(** [load_csv(path, engine, if_exists)] *)
Definition load_csv (env : Env) (path : string) (engine : Engine)
    (if_exists : string) : M unit :=
  df <- (match read_csv env path with
         | Some df => ret df
         | None => raise (FileNotFoundError path)
         end) ;;
  column <- (match to_datetime env (map published_at df) ErrorsCoerce with
             | inr column => ret column
             | inl e => raise e
             end) ;;
  let df := assign_published_at df column in
  begin env (load_csv_body engine if_exists df).

(** The keyword arguments Airflow calls [run_load] with: [params] (its
    [db_url] and [upstream_task_id] entries, [None] when missing) and the
    task instance, of which only [xcom_pull(key, task_ids)] is used. *)
Record Context : Type := {
  params_db_url : option string;
  params_upstream_task_id : option string;
  ti_xcom_pull : string -> option string -> option (list string)
}.

(** [run_load], with the environment variable [DB_URL] as
    [env_DB_URL]. *)
Definition run_load (env : Env) (env_DB_URL : option string)
    (context : Context) : M unit :=
  match or_else (params_db_url context) env_DB_URL with
  | None =>
      raise (RuntimeError
        "Database URL not provided. Set DB_URL env var or pass via params['db_url'].")
  | Some db_url =>
      if negb (truthy (Some db_url)) then
        raise (RuntimeError
          "Database URL not provided. Set DB_URL env var or pass via params['db_url'].")
      else
        match ti_xcom_pull context "processed_paths"
                (params_upstream_task_id context) with
        | None =>
            raise (ValueError "No processed CSV paths received from XCom.")
        | Some processed_paths =>
            if negb (nonempty processed_paths) then
              raise (ValueError "No processed CSV paths received from XCom.")
            else
              engine <- get_engine env db_url ;;
              ensure_table env engine ;;
              for_each processed_paths
                (fun csv_path => load_csv env csv_path engine "append")
        end
  end.

(** ** Vocabulary of the properties *)

(** A value of a column that is there and that the parser cannot read. *)
Definition malformed (env : Env) (column : list string) (cell : string)
    : bool :=
  negb (isna cell) &&
  match parse_datetime env column cell with
  | Some _ => false
  | None => true
  end.

(** The timestamp of a cell of a column, NULL when the cell has none: it
    is missing or the parser cannot read it. *)
Definition timestamp_of (env : Env) (column : list string) (cell : string)
    : option Timestamp :=
  if isna cell then None else parse_datetime env column cell.

(** The row that [load_csv] goes on with for a row of a file whose
    [published_at] column is [column]: the row with the timestamp of its
    cell. *)
Definition coerce_published_at (env : Env) (column : list string)
    (r : CsvRow) : DfRow :=
  set_published_at r (timestamp_of env column (published_at r)).

(** The world after a PostgreSQL load that committed [rows']. *)
Definition committed (w : World) (rows' : list Row) : World :=
  {| database :=
       {| youtube_videos := Some {| schema := Ensured; rows := rows' |};
          tmp_youtube_load := None |};
     transactions := S (transactions w);
     journal := journal w ++ [EvBegin; EvCommit] |}.

(** The world after a transaction that was rolled back. *)
Definition rolled_back (w : World) : World :=
  {| database := database w;
     transactions := S (transactions w);
     journal := journal w ++ [EvBegin; EvRollback] |}.

(** The arguments of the command line of [load.py]: [--inputs] (one path
    or more) and [--db_url]. *)
Record Args : Type := {
  args_inputs : list string;
  args_db_url : option string
}.

(** The main block of [load.py], with the environment variable [DB_URL]
    as [env_DB_URL].  The result is the exit status when the block ends by
    itself (1 after [exit(1)], 0 at its end), or the exception that escapes
    it: nothing is caught here. *)
Definition main (env : Env) (env_DB_URL : option string) (args : Args)
    : M Z :=
  match or_else (args_db_url args) env_DB_URL with
  | None => ret 1%Z
  | Some db_url =>
      if negb (truthy (Some db_url)) then ret 1%Z
      else
        engine <- get_engine env db_url ;;
        ensure_table env engine ;;
        for_each (args_inputs args)
          (fun csv_path => load_csv env csv_path engine "append") ;;
        ret 0%Z
  end.

End Load.

(** * Sample data

    Concrete inputs on which the properties below are exercised. *)

Module Samples.

Import Extract Load.

(** The 50/50/20 scenario: 120 items numbered from 0. *)
Definition kpop_script : list (ApiResult nat) :=
  [page (seq 0 50) (Some "CDIQAA"%string);
   page (seq 50 50) (Some "CGQQAA"%string);
   page (seq 100 20) None].

(** A result set of a single item. *)
Definition one_item_script : list (ApiResult nat) := [page [7%nat] None].

Definition postgresql : Engine := {| dialect := {| name := "postgresql" |} |}.
Definition sqlite : Engine := {| dialect := {| name := "sqlite" |} |}.

(** A dialect other than PostgreSQL whose server runs the DDL of
    [ensure_table]. *)
Definition cockroachdb : Engine :=
  {| dialect := {| name := "cockroachdb" |} |}.

(** A record of a processed CSV file. *)
Definition record (id title published : string) : CsvRow :=
  {| video_id := id;
     title := title;
     channel_title := "channel";
     published_at := published;
     description := "text";
     query_tag := "kpop" |}.

(** The files of the sample runs. *)
Definition files (path : string) : option (list CsvRow) :=
  if String.eqb path "a.csv" then
    Some [record "V1" "A" "2024-01-01T00:00:00Z"]
  else if String.eqb path "b.csv" then
    Some [record "V1" "B" "2024-01-01T00:00:00Z"]
  else if String.eqb path "malformed.csv" then
    Some [record "V1" "A" "2024-01-01T00:00:00Z"; record "V2" "C" "yesterday"]
  else if String.eqb path "twice.csv" then
    Some [record "V1" "A" "2024-01-01T00:00:00Z";
          record "V1" "B" "2024-01-02T00:00:00Z"]
  else None.

(** A parser that knows two dates, whatever the column. *)
Definition parse (column : list string) (cell : string) : option Timestamp :=
  if String.eqb cell "2024-01-01T00:00:00Z" then Some 1704067200%Z
  else if String.eqb cell "2024-01-02T00:00:00Z" then Some 1704153600%Z
  else None.

(** A parser that takes the format of a column from its first value: in
    a column that begins with a date and a time, a date alone is not
    read. *)
Definition strict_parse (column : list string) (cell : string)
    : option Timestamp :=
  match column with
  | first :: _ =>
      if Nat.eqb (String.length first) (String.length cell) then
        parse column cell
      else None
  | [] => None
  end.

Definition sample_env : Env :=
  {| read_csv := files;
     parse_datetime := parse;
     create_engine := fun db_url =>
       if String.prefix "postgresql://" db_url then Some postgresql
       else if String.prefix "sqlite://" db_url then Some sqlite
       else if String.prefix "cockroachdb://" db_url then Some cockroachdb
       else None;
     ddl_error := fun dialect_name =>
       if String.eqb dialect_name "cockroachdb" then None
       else Some (ProgrammingError "syntax error");
     clock := fun k => (1000 + Z.of_nat k)%Z |}.

(** A database with no table at all. *)
Definition blank : World :=
  {| database := {| youtube_videos := None; tmp_youtube_load := None |};
     transactions := 0;
     journal := [] |}.

(** The same after [ensure_table]. *)
Definition ensured : World :=
  {| database :=
       {| youtube_videos := Some {| schema := Ensured; rows := [] |};
          tmp_youtube_load := None |};
     transactions := 1;
     journal := [EvBegin; EvCommit] |}.

(** The row of [a.csv] once loaded in the transaction number 1. *)
Definition row_a : Row :=
  {| cols :=
       coerce_published_at sample_env ["2024-01-01T00:00:00Z"%string]
         (record "V1" "A" "2024-01-01T00:00:00Z");
     loaded_at := Some 1001%Z |}.

Definition table_a : Table := {| schema := Ensured; rows := [row_a] |}.

(** [ensured] after [load_csv] of [a.csv] on PostgreSQL. *)
Definition loaded_a : World :=
  {| database :=
       {| youtube_videos := Some table_a; tmp_youtube_load := None |};
     transactions := 2;
     journal := [EvBegin; EvCommit; EvBegin; EvCommit] |}.

(** A task context whose upstream task pushed [paths]. *)
Definition context_with (paths : option (list string)) : Context :=
  {| params_db_url := Some "postgresql://user:pw@db/yt"%string;
     params_upstream_task_id := Some "transform_data"%string;
     ti_xcom_pull := fun _ _ => paths |}.

(** The outside of the extract stage: the API answers every fetch with
    the 50/50/20 script, the clock stands still, and every file can be
    opened. *)
Definition extract_env : ExtractRun.Env nat :=
  {| ExtractRun.YT_API_KEY := Some "key"%string;
     ExtractRun.answers := fun _ => kpop_script;
     ExtractRun.utcnow := fun _ => "2024-01-01T00-00-00Z"%string;
     ExtractRun.raw_path := fun name => ("/data/raw/" ++ name)%string;
     ExtractRun.can_open := fun _ => true |}.

(** The same without an API key. *)
Definition keyless_env : ExtractRun.Env nat :=
  {| ExtractRun.YT_API_KEY := None;
     ExtractRun.answers := fun _ => kpop_script;
     ExtractRun.utcnow := fun _ => "2024-01-01T00-00-00Z"%string;
     ExtractRun.raw_path := fun name => ("/data/raw/" ++ name)%string;
     ExtractRun.can_open := fun _ => true |}.

(** Nothing written, nothing pushed, nothing requested yet. *)
Definition fresh : ExtractRun.World nat :=
  {| ExtractRun.files := [];
     ExtractRun.xcom := [];
     ExtractRun.events := [];
     ExtractRun.fetches := 0;
     ExtractRun.saves := 0 |}.

(** The parameters of a task that asks for [raw_queries]. *)
Definition asking (raw_queries : string) : ExtractRun.Context :=
  {| ExtractRun.params_query := Some raw_queries;
     ExtractRun.params_max_total := Some 50%Z;
     ExtractRun.params_api_key := None |}.

(** A database whose [youtube_videos] was created by [to_sql], and which
    holds a staging table left by someone else. *)
Definition inferred : World :=
  {| database :=
       {| youtube_videos := Some {| schema := Inferred; rows := [] |};
          tmp_youtube_load :=
            Some [coerce_published_at sample_env
                    ["2024-01-01T00:00:00Z"%string]
                    (record "V9" "Z" "2024-01-01T00:00:00Z")] |};
     transactions := 0;
     journal := [] |}.

(** The table of [a.csv] with a staging table left behind. *)
Definition littered : World :=
  {| database :=
       {| youtube_videos := Some table_a;
          tmp_youtube_load :=
            Some [coerce_published_at sample_env
                    ["2024-01-01T00:00:00Z"%string]
                    (record "V9" "Z" "2024-01-01T00:00:00Z")] |};
     transactions := 2;
     journal := [] |}.

(** A task context whose database URL is of no known kind. *)
Definition unreachable_context : Context :=
  {| params_db_url := Some "mysql://user:pw@db/yt"%string;
     params_upstream_task_id := Some "transform_data"%string;
     ti_xcom_pull := fun _ _ => Some ["a.csv"%string] |}.

End Samples.

(** * Properties *)

Module PyFacts.

Import Py.

Lemma len_app {A} (l1 l2 : list A) : len (l1 ++ l2) = (len l1 + len l2)%Z.
Proof. unfold len. rewrite length_app. lia. Qed.

Lemma len_nonneg {A} (l : list A) : (0 <= len l)%Z.
Proof. unfold len. lia. Qed.

Lemma nonempty_len {A} (l : list A) : nonempty l = true <-> (0 < len l)%Z.
Proof.
  unfold len. destruct l as [|x l]; simpl; split; intro H;
    try lia; try discriminate; reflexivity.
Qed.

Lemma slice_to_length {A} (l : list A) (stop : Z) :
  (0 <= stop)%Z -> len (slice_to l stop) = Z.min stop (len l).
Proof.
  intro H. unfold slice_to, len.
  destruct (Z.leb_spec 0 stop) as [_|Hneg]; [|lia].
  rewrite length_firstn. lia.
Qed.

Lemma slice_to_all {A} (l : list A) (stop : Z) :
  (len l <= stop)%Z -> slice_to l stop = l.
Proof.
  intro H. unfold slice_to. pose proof (len_nonneg l) as Hl. unfold len in *.
  destruct (Z.leb_spec 0 stop) as [_|Hneg]; [|lia].
  apply firstn_all2. lia.
Qed.

End PyFacts.

(** ** The Fetcher *)

Module ExtractSpec.

Import Py PyFacts Extract.

Section FetcherFacts.

Context {Item : Type}.

Implicit Types (script : list (ApiResult Item)) (collected : list Item).
Implicit Types (response : Response Item) (token : option string).

(** Settle the guard of the loop from the hypotheses: it holds, or it
    fails. *)
Ltac guard_holds :=
  match goal with
  | |- context [(len ?c <? ?m)%Z] =>
      destruct (Z.ltb_spec (len c) m); [|lia]
  end.

Ltac guard_fails :=
  match goal with
  | |- context [(len ?c <? ?m)%Z] =>
      destruct (Z.ltb_spec (len c) m); [lia|]
  end.

(** One pass of the loop, whatever the script is. *)
Lemma paginate_eq query max_total sleep script collected token :
  paginate query max_total sleep script collected token =
  if (len collected <? max_total)%Z then
    match script with
    | [] => {| outcome := Pending;
               trace := [EvExecute (request_at query max_total collected token)] |}
    | HttpError e :: script' =>
        after [EvExecute (request_at query max_total collected token);
               EvSleep retry_cooldown]
          (paginate query max_total sleep script' collected token)
    | OtherError e :: _ =>
        {| outcome := Raised e;
           trace := [EvExecute (request_at query max_total collected token)] |}
    | ApiResponse response :: script' =>
        if negb (nonempty (get_items response)) then
          {| outcome := Returned collected;
             trace := [EvExecute (request_at query max_total collected token)] |}
        else if negb (truthy (nextPageToken response)) then
          {| outcome := Returned (collected ++ get_items response);
             trace := [EvExecute (request_at query max_total collected token)] |}
        else
          after [EvExecute (request_at query max_total collected token);
                 EvSleep sleep]
            (paginate query max_total sleep script'
               (collected ++ get_items response) (nextPageToken response))
    end
  else {| outcome := Returned collected; trace := [] |}.
Proof. destruct script as [|[response|e|e] script']; reflexivity. Qed.

(** At the loop head with the budget reached, the loop is over. *)
Lemma paginate_full query max_total sleep script collected token :
  (max_total <= len collected)%Z ->
  paginate query max_total sleep script collected token =
  {| outcome := Returned collected; trace := [] |}.
Proof.
  intro H. rewrite paginate_eq. guard_fails. reflexivity.
Qed.

(** With budget left, the loop issues a request before anything else. *)
Lemma paginate_requests_first query max_total sleep script collected token :
  (len collected < max_total)%Z ->
  exists more,
    requests (trace (paginate query max_total sleep script collected token)) =
    request_at query max_total collected token :: more.
Proof.
  intro H. rewrite paginate_eq.
  guard_holds.
  destruct script as [|[response|e|e] script']; simpl.
  - eexists; reflexivity.
  - destruct (nonempty (get_items response)); simpl.
    + destruct (truthy (nextPageToken response)); simpl; eexists; reflexivity.
    + eexists; reflexivity.
  - eexists; reflexivity.
  - eexists; reflexivity.
Qed.

Lemma requests_app (t1 t2 : list Event) :
  requests (t1 ++ t2) = requests t1 ++ requests t2.
Proof.
  induction t1 as [|[r|s] t1 IH]; simpl; [reflexivity | f_equal; exact IH | exact IH].
Qed.

(** A run of HttpErrors: each one costs a request and a cooldown and leaves
    the state of the loop as it was. *)
Lemma paginate_errors query max_total sleep (errors : list string) script
    collected token :
  (len collected < max_total)%Z ->
  paginate query max_total sleep (map (@HttpError Item) errors ++ script)
    collected token =
  after
    (flat_map (fun _ => [EvExecute (request_at query max_total collected token);
                         EvSleep retry_cooldown]) errors)
    (paginate query max_total sleep script collected token).
Proof.
  intro H. induction errors as [|e errors IH].
  - simpl. unfold after. simpl.
    destruct (paginate query max_total sleep script collected token); reflexivity.
  - cbn [map app flat_map]. rewrite paginate_eq.
    guard_holds.
    rewrite IH. unfold after. simpl. reflexivity.
Qed.

Lemma total_available_nonneg script : (0 <= total_available script)%Z.
Proof.
  induction script as [|[response|e|e] script IH]; simpl;
    [lia | | exact IH | lia].
  pose proof (len_nonneg (get_items response)).
  destruct (last_page response); lia.
Qed.

(** On a script whose last answer, and no answer before it, ends the
    result set, the total available is the number of items of all its
    pages. *)
Lemma total_available_whole_script script response :
  more_to_come script = true ->
  last_page response = true ->
  ends_result_set (script ++ [ApiResponse response]) = true /\
  total_available (script ++ [ApiResponse response]) =
  len (all_items (script ++ [ApiResponse response])).
Proof.
  intros Hmore Hlast.
  induction script as [|[response'|e|e] script IH]; simpl in *.
  - rewrite Hlast, app_nil_r. split; reflexivity.
  - apply andb_true_iff in Hmore. destruct Hmore as [Hnot Hmore].
    apply negb_true_iff in Hnot. rewrite Hnot. cbn [orb].
    destruct (IH Hmore) as [Hend Htotal].
    split; [exact Hend|]. rewrite len_app, Htotal. reflexivity.
  - apply IH. exact Hmore.
  - discriminate.
Qed.

(** The loop on a script that reaches the end of the result set: it
    returns, and what it has collected is the whole result set unless the
    budget was reached first. *)
Lemma paginate_collects query max_total sleep script :
  forall collected token,
  ends_result_set script = true ->
  exists final,
    outcome (paginate query max_total sleep script collected token)
      = Returned final /\
    Z.min max_total (len final) =
    Z.min max_total (len collected + total_available script).
Proof.
  induction script as [|[response|e|e] script IH];
    intros collected token Hend; [| | |discriminate].
  - discriminate.
  - rewrite paginate_eq.
    pose proof (total_available_nonneg (ApiResponse response :: script)) as Hnn.
    destruct (Z.ltb_spec (len collected) max_total) as [Hlt|Hge].
    2:{ eexists; split; [reflexivity|]. lia. }
    simpl in Hend, Hnn |- *. unfold last_page in *.
    destruct (nonempty (get_items response)) eqn:Hne; simpl in *.
    + destruct (truthy (nextPageToken response)) eqn:Htok; simpl in *.
      * destruct (IH (collected ++ get_items response)
                     (nextPageToken response) Hend) as (final & Hout & Hlen).
        exists final. split; [exact Hout|].
        rewrite Hlen, len_app. f_equal. lia.
      * eexists; split; [reflexivity|]. rewrite len_app. reflexivity.
    + eexists; split; [reflexivity|].
      destruct (get_items response); [|discriminate]. f_equal.
      unfold len; simpl; lia.
  - rewrite paginate_eq.
    pose proof (total_available_nonneg script) as Hnn.
    destruct (Z.ltb_spec (len collected) max_total) as [Hlt|Hge].
    2:{ eexists; split; [reflexivity|]. simpl. lia. }
    simpl in Hend |- *. apply IH. exact Hend.
Qed.

Lemma slice_to_nil (stop : Z) : slice_to (@nil Item) stop = [].
Proof. unfold slice_to. destruct (0 <=? stop)%Z; apply firstn_nil. Qed.

Lemma map_outcome_after {A B} (f : A -> B) events (r : Run A) :
  map_outcome f (after events r) = after events (map_outcome f r).
Proof. reflexivity. Qed.

(** The three ways a pass that received a page goes on. *)
Lemma paginate_next query max_total sleep response script collected token :
  (len collected < max_total)%Z ->
  nonempty (get_items response) = true ->
  truthy (nextPageToken response) = true ->
  paginate query max_total sleep (ApiResponse response :: script)
    collected token =
  after [EvExecute (request_at query max_total collected token); EvSleep sleep]
    (paginate query max_total sleep script
       (collected ++ get_items response) (nextPageToken response)).
Proof.
  intros Hlt Hne Htok. rewrite paginate_eq.
  guard_holds.
  rewrite Hne, Htok. reflexivity.
Qed.

Lemma paginate_no_token query max_total sleep response script collected token :
  (len collected < max_total)%Z ->
  nonempty (get_items response) = true ->
  truthy (nextPageToken response) = false ->
  paginate query max_total sleep (ApiResponse response :: script)
    collected token =
  {| outcome := Returned (collected ++ get_items response);
     trace := [EvExecute (request_at query max_total collected token)] |}.
Proof.
  intros Hlt Hne Htok. rewrite paginate_eq.
  guard_holds.
  rewrite Hne, Htok. reflexivity.
Qed.

Lemma paginate_empty_page query max_total sleep response script collected
    token :
  (len collected < max_total)%Z ->
  nonempty (get_items response) = false ->
  paginate query max_total sleep (ApiResponse response :: script)
    collected token =
  {| outcome := Returned collected;
     trace := [EvExecute (request_at query max_total collected token)] |}.
Proof.
  intros Hlt Hne. rewrite paginate_eq.
  guard_holds.
  rewrite Hne. reflexivity.
Qed.

(** C10. With an API key at hand and [max_total <= 0], the loop body is
    never entered: no page request is issued (the trace is empty) and the
    result is the empty list, whatever the query and whatever the API would
    have answered. *)
Theorem C10_nonpositive_budget_no_request
    env_api_key script query max_total api_key sleep :
  truthy (or_else api_key env_api_key) = true ->
  (max_total <= 0)%Z ->
  extract_videos_for_query env_api_key script query max_total api_key sleep
  = {| outcome := Returned []; trace := [] |}.
Proof.
  intros Hkey Hmax. unfold extract_videos_for_query.
  rewrite Hkey. cbn [negb].
  rewrite paginate_full by (unfold len; simpl; lia).
  unfold map_outcome. cbn [outcome trace]. rewrite slice_to_nil. reflexivity.
Qed.

(** C8. The 50/50/20 scenario with [max_total = 120]: three pages of 50, 50
    and 20 items, the first two with a continuation token and the third
    without.  The run issues exactly three requests, whose page sizes are
    [min(50, 120)], [min(50, 70)] and [min(50, 20)] and whose page tokens are
    none, the first token and the second token; it returns the 120 items in
    order. *)
Theorem C8_three_pages_of_120
    env_api_key api_key sleep (p1 p2 p3 : list Item) t1 t2 t3 script :
  truthy (or_else api_key env_api_key) = true ->
  len p1 = 50%Z -> len p2 = 50%Z -> len p3 = 20%Z ->
  truthy (Some t1) = true -> truthy (Some t2) = true -> truthy t3 = false ->
  let run :=
    extract_videos_for_query env_api_key
      (page p1 (Some t1) :: page p2 (Some t2) :: page p3 t3 :: script)
      "kpop" 120 api_key sleep in
  outcome run = Returned (p1 ++ p2 ++ p3) /\
  len (p1 ++ p2 ++ p3) = 120%Z /\
  requests (trace run) =
    [search_list "kpop" 50 None;
     search_list "kpop" 50 (Some t1);
     search_list "kpop" 20 (Some t2)] /\
  length (requests (trace run)) = 3%nat.
Proof.
  intros Hkey H1 H2 H3 Ht1 Ht2 Ht3 run.
  assert (Hrun : run =
    {| outcome := Returned (p1 ++ p2 ++ p3);
       trace := [EvExecute (search_list "kpop" 50 None); EvSleep sleep;
                 EvExecute (search_list "kpop" 50 (Some t1)); EvSleep sleep;
                 EvExecute (search_list "kpop" 20 (Some t2))] |}).
  { unfold run, extract_videos_for_query. rewrite Hkey. cbn [negb].
    unfold page.
    rewrite paginate_next; cbn [get_items items nextPageToken app];
      [ | unfold len; simpl; lia | apply nonempty_len; lia | exact Ht1 ].
    rewrite paginate_next; cbn [get_items items nextPageToken];
      [ | lia | apply nonempty_len; lia | exact Ht2 ].
    rewrite paginate_no_token; cbn [get_items items nextPageToken];
      [ | rewrite len_app; lia | apply nonempty_len; lia | exact Ht3 ].
    unfold map_outcome, after, request_at. cbn [outcome trace app].
    rewrite slice_to_all by (rewrite !len_app; lia).
    rewrite len_app, H1, H2. change (len (@nil Item)) with 0%Z.
    rewrite <- app_assoc. reflexivity. }
  rewrite Hrun. cbn [outcome trace requests length].
  repeat split. rewrite !len_app. lia.
Qed.

Lemma after_nil {A} (r : Run A) : after [] r = r.
Proof. destruct r; reflexivity. Qed.

Lemma after_app {A} (t1 t2 : list Event) (r : Run A) :
  after (t1 ++ t2) r = after t1 (after t2 r).
Proof. unfold after. cbn [outcome trace]. rewrite app_assoc. reflexivity. Qed.

Lemma all_items_app script1 script2 :
  all_items (script1 ++ script2) = all_items script1 ++ all_items script2.
Proof.
  induction script1 as [|[response|e|e] script1 IH]; cbn [app all_items];
    [reflexivity | rewrite IH; apply app_assoc | exact IH | exact IH].
Qed.

(** What it takes for a page not to stop the loop. *)
Lemma stops_false max_total collected response :
  stops max_total collected response = false ->
  nonempty (get_items response) = true /\
  truthy (nextPageToken response) = true /\
  (len (collected ++ get_items response) < max_total)%Z.
Proof.
  unfold stops. intro H.
  apply orb_false_iff in H. destruct H as [H Hfull].
  apply orb_false_iff in H. destruct H as [Hne Htok].
  apply negb_false_iff in Hne. apply negb_false_iff in Htok.
  apply Z.leb_gt in Hfull. auto.
Qed.

(** The loop over answers none of which stops it: one request for each
    answer, the sleep that goes with the answer after each request, and
    the loop head reached again with the items of all the pages in hand
    and budget left. *)
Lemma paginate_keeps_going query max_total sleep rest :
  forall prefix collected token,
  (len collected < max_total)%Z ->
  keeps_going max_total collected prefix = true ->
  exists events token',
    paginate query max_total sleep (prefix ++ rest) collected token =
    after events
      (paginate query max_total sleep rest (collected ++ all_items prefix)
         token') /\
    length (requests events) = length prefix /\
    sleeps events = pauses sleep prefix /\
    (len (collected ++ all_items prefix) < max_total)%Z.
Proof.
  induction prefix as [|[response|e|e] prefix IH];
    intros collected token Hlt Hgo; cbn [keeps_going] in Hgo;
    [| | |discriminate].
  - exists [], token. cbn [app all_items]. rewrite app_nil_r, after_nil.
    auto.
  - apply andb_true_iff in Hgo. destruct Hgo as [Hstop Hgo].
    apply negb_true_iff, stops_false in Hstop.
    destruct Hstop as (Hne & Htok & Hroom).
    destruct (IH _ (nextPageToken response) Hroom Hgo)
      as (events & token' & Hrun & Hreq & Hsl & Hlt').
    exists ([EvExecute (request_at query max_total collected token);
             EvSleep sleep] ++ events), token'.
    cbn [app all_items]. rewrite paginate_next by assumption.
    rewrite Hrun, app_assoc.
    split; [symmetry; apply (after_app [_; _])|].
    cbn [requests sleeps pauses length]. rewrite Hreq, Hsl. auto.
  - destruct (IH collected token Hlt Hgo)
      as (events & token' & Hrun & Hreq & Hsl & Hlt').
    exists ([EvExecute (request_at query max_total collected token);
             EvSleep retry_cooldown] ++ events), token'.
    cbn [app all_items]. rewrite paginate_eq. guard_holds.
    rewrite Hrun.
    split; [symmetry; apply (after_app [_; _])|].
    cbn [requests sleeps pauses length]. rewrite Hreq, Hsl. auto.
Qed.

(** The pass that receives a page meeting one of the three conditions is
    the last one: the loop returns what it has, that page included, and
    reads no further answer. *)
Lemma paginate_stops query max_total sleep last rest collected token :
  (len collected < max_total)%Z ->
  stops max_total collected last = true ->
  exists events,
    paginate query max_total sleep (ApiResponse last :: rest) collected token
    = {| outcome := Returned (collected ++ get_items last);
         trace := EvExecute (request_at query max_total collected token)
                  :: events |} /\
    requests events = [] /\
    forall rest',
      paginate query max_total sleep (ApiResponse last :: rest') collected
        token =
      paginate query max_total sleep (ApiResponse last :: rest) collected
        token.
Proof.
  intros Hlt Hstop. unfold stops in Hstop.
  destruct (nonempty (get_items last)) eqn:Hne.
  2:{ assert (Hitems : get_items last = [])
        by (destruct (get_items last); [reflexivity|discriminate]).
      exists []. rewrite paginate_empty_page by assumption.
      rewrite Hitems, app_nil_r.
      split; [reflexivity|]. split; [reflexivity|].
      intro rest'. rewrite paginate_empty_page by assumption. reflexivity. }
  destruct (truthy (nextPageToken last)) eqn:Htok.
  2:{ exists []. rewrite paginate_no_token by assumption.
      split; [reflexivity|]. split; [reflexivity|].
      intro rest'. rewrite paginate_no_token by assumption. reflexivity. }
  cbn [negb orb] in Hstop. apply Z.leb_le in Hstop.
  exists [EvSleep sleep]. rewrite paginate_next by assumption.
  rewrite paginate_full by exact Hstop.
  split; [reflexivity|]. split; [reflexivity|].
  intro rest'. rewrite paginate_next by assumption.
  rewrite paginate_full by exact Hstop. reflexivity.
Qed.

(** Nothing after the first answer that meets one of the three conditions
    is read. *)
Lemma paginate_reads_no_further query max_total sleep last rest rest' :
  forall prefix collected token,
  (len collected < max_total)%Z ->
  keeps_going max_total collected prefix = true ->
  stops max_total (collected ++ all_items prefix) last = true ->
  paginate query max_total sleep (prefix ++ ApiResponse last :: rest)
    collected token =
  paginate query max_total sleep (prefix ++ ApiResponse last :: rest')
    collected token.
Proof.
  induction prefix as [|[response|e|e] prefix IH];
    intros collected token Hlt Hgo Hstop; cbn [keeps_going] in Hgo;
    cbn [app all_items] in *; [| | |discriminate].
  - rewrite app_nil_r in Hstop.
    destruct (@paginate_stops query max_total sleep last rest collected token
                Hlt Hstop) as (events & _ & _ & Hcut).
    symmetry. apply Hcut.
  - apply andb_true_iff in Hgo. destruct Hgo as [Hs Hgo].
    apply negb_true_iff, stops_false in Hs. destruct Hs as (Hne & Htok & Hroom).
    rewrite !paginate_next by assumption. f_equal.
    apply IH; [exact Hroom | exact Hgo |]. rewrite <- app_assoc. exact Hstop.
  - rewrite (paginate_eq _ _ _ (HttpError e :: _ ++ _ :: rest)).
    rewrite (paginate_eq _ _ _ (HttpError e :: _ ++ _ :: rest')).
    guard_holds. f_equal. apply IH; assumption.
Qed.

(** The loop from the first answer that meets one of the three conditions,
    none before it doing so. *)
Lemma paginate_first_stop query max_total sleep prefix last rest collected
    token :
  (len collected < max_total)%Z ->
  keeps_going max_total collected prefix = true ->
  stops max_total (collected ++ all_items prefix) last = true ->
  let run :=
    paginate query max_total sleep (prefix ++ ApiResponse last :: rest)
      collected token in
  outcome run = Returned (collected ++ all_items (prefix ++ [ApiResponse last]))
  /\ length (requests (trace run)) = S (length prefix)
  /\ run =
     paginate query max_total sleep (prefix ++ [ApiResponse last]) collected
       token.
Proof.
  intros Hlt Hgo Hstop run. unfold run.
  split; [|split; [|apply paginate_reads_no_further; assumption]].
  - destruct (@paginate_keeps_going query max_total sleep
                (ApiResponse last :: rest) prefix collected token Hlt Hgo)
      as (events & token' & Hrun & Hreq & _ & Hlt').
    destruct (@paginate_stops query max_total sleep last rest _ token' Hlt'
                Hstop) as (more & Hlast & Hmore & _).
    rewrite Hrun, Hlast. unfold after. cbn [outcome trace].
    rewrite all_items_app. cbn [all_items]. rewrite app_nil_r, app_assoc.
    reflexivity.
  - destruct (@paginate_keeps_going query max_total sleep
                (ApiResponse last :: rest) prefix collected token Hlt Hgo)
      as (events & token' & Hrun & Hreq & _ & Hlt').
    destruct (@paginate_stops query max_total sleep last rest _ token' Hlt'
                Hstop) as (more & Hlast & Hmore & _).
    rewrite Hrun, Hlast. unfold after. cbn [outcome trace].
    rewrite requests_app. cbn [requests]. rewrite Hmore, length_app, Hreq.
    cbn [length]. lia.
Qed.

(** The loop over a script none of whose answers stops it: it has asked
    once more than it was answered. *)
Lemma paginate_never_stops query max_total sleep script collected token :
  (len collected < max_total)%Z ->
  keeps_going max_total collected script = true ->
  let run := paginate query max_total sleep script collected token in
  outcome run = Pending /\
  length (requests (trace run)) = S (length script) /\
  sleeps (trace run) = pauses sleep script.
Proof.
  intros Hlt Hgo run. unfold run.
  destruct (@paginate_keeps_going query max_total sleep [] script collected
              token Hlt Hgo) as (events & token' & Hrun & Hreq & Hsl & Hlt').
  rewrite app_nil_r in Hrun. rewrite Hrun, paginate_eq. guard_holds.
  unfold after. cbn [outcome trace].
  split; [reflexivity|]. rewrite requests_app. cbn [requests].
  split; [rewrite length_app, Hreq; cbn [length]; lia|].
  clear - Hsl. revert Hsl. generalize (pauses sleep script).
  induction events as [|[r|s'] events IH]; intros l Hl; cbn [app sleeps] in *.
  - exact Hl.
  - apply IH. exact Hl.
  - destruct l as [|x l]; [discriminate|]. injection Hl as -> Hl.
    f_equal. apply IH. exact Hl.
Qed.

(** A loop that returns has met one of the three conditions, at the first
    answer that meets one. *)
Lemma paginate_returned query max_total sleep script :
  forall collected token final,
  (len collected < max_total)%Z ->
  outcome (paginate query max_total sleep script collected token)
  = Returned final ->
  exists prefix last rest,
    script = prefix ++ ApiResponse last :: rest /\
    keeps_going max_total collected prefix = true /\
    stops max_total (collected ++ all_items prefix) last = true.
Proof.
  induction script as [|[response|e|e] script IH];
    intros collected token final Hlt Hret; rewrite paginate_eq in Hret;
    revert Hret; guard_holds; intro Hret; try discriminate.
  - destruct (stops max_total collected response) eqn:Hstop.
    + exists [], response, script. cbn [app all_items keeps_going].
      rewrite app_nil_r. auto.
    + destruct (stops_false _ _ _ Hstop) as (Hne & Htok & Hroom).
      rewrite Hne, Htok in Hret. cbn [negb] in Hret.
      destruct (IH _ _ _ Hroom Hret) as (prefix & last & rest & -> & Hgo & Hs).
      exists (ApiResponse response :: prefix), last, rest.
      cbn [app all_items keeps_going]. rewrite Hstop, Hgo, app_assoc. auto.
  - destruct (IH _ _ _ Hlt Hret) as (prefix & last & rest & -> & Hgo & Hs).
    exists (HttpError e :: prefix), last, rest.
    cbn [app all_items keeps_going]. auto.
Qed.

(** C5. Pagination ends exactly at the first of three conditions: the
    count has reached [max_total], the page is empty, or the page carries no
    continuation token ([stops]).
    (i) At the loop head with the count at [max_total] or beyond, the loop
    is over and no request is issued.
    (ii) On a script whose answers keep the loop going ([keeps_going]: pages
    that meet none of the three conditions, and [HttpError]s) up to a first
    page that meets one, the loop returns at that page, with the items of
    all the pages up to and including it, after one request per answer
    received; nothing after that page is read.
    (iii) On a script none of whose answers meets a condition the loop does
    not end: it has issued one request more than it has answers.
    (iv) Conversely a loop that returns has met one of the three conditions
    at some page, and none before it.
    (v) In particular a page without continuation token ends the loop with
    what has been collected, also when the count is still below
    [max_total].
    (vi) The same holds of [extract_videos_for_query] itself, which returns
    the first [max_total] of the collected items. *)
Theorem C5_pagination_stop_conditions
    env_api_key api_key query max_total sleep prefix last rest script
    collected token :
  let loop script := paginate query max_total sleep script collected token in
  let fetch script :=
    extract_videos_for_query env_api_key script query max_total api_key
      sleep in
  ((max_total <= len collected)%Z ->
     loop script = {| outcome := Returned collected; trace := [] |}) /\
  ((len collected < max_total)%Z ->
   keeps_going max_total collected prefix = true ->
   stops max_total (collected ++ all_items prefix) last = true ->
   outcome (loop (prefix ++ ApiResponse last :: rest))
   = Returned (collected ++ all_items (prefix ++ [ApiResponse last])) /\
   length (requests (trace (loop (prefix ++ ApiResponse last :: rest))))
   = S (length prefix) /\
   loop (prefix ++ ApiResponse last :: rest)
   = loop (prefix ++ [ApiResponse last])) /\
  ((len collected < max_total)%Z ->
   keeps_going max_total collected script = true ->
   outcome (loop script) = Pending /\
   length (requests (trace (loop script))) = S (length script)) /\
  ((len collected < max_total)%Z ->
   forall final,
     outcome (loop script) = Returned final ->
     exists prefix' last' rest',
       script = prefix' ++ ApiResponse last' :: rest' /\
       keeps_going max_total collected prefix' = true /\
       stops max_total (collected ++ all_items prefix') last' = true) /\
  ((len collected < max_total)%Z ->
   truthy (nextPageToken last) = false ->
   loop (ApiResponse last :: rest)
   = {| outcome := Returned (collected ++ get_items last);
        trace := [EvExecute (request_at query max_total collected token)] |})
  /\
  (truthy (or_else api_key env_api_key) = true ->
   (0 < max_total)%Z ->
   (keeps_going max_total [] prefix = true ->
    stops max_total (all_items prefix) last = true ->
    outcome (fetch (prefix ++ ApiResponse last :: rest))
    = Returned (slice_to (all_items (prefix ++ [ApiResponse last])) max_total)
    /\
    length (requests (trace (fetch (prefix ++ ApiResponse last :: rest))))
    = S (length prefix) /\
    fetch (prefix ++ ApiResponse last :: rest)
    = fetch (prefix ++ [ApiResponse last])) /\
   (keeps_going max_total [] script = true ->
    outcome (fetch script) = Pending /\
    length (requests (trace (fetch script))) = S (length script)) /\
   (forall result,
      outcome (fetch script) = Returned result ->
      exists prefix' last' rest',
        script = prefix' ++ ApiResponse last' :: rest' /\
        keeps_going max_total [] prefix' = true /\
        stops max_total (all_items prefix') last' = true)).
Proof.
  intros loop fetch. unfold loop.
  split; [apply paginate_full|].
  split; [intros Hlt Hgo Hstop; apply paginate_first_stop; assumption|].
  split.
  { intros Hlt Hgo.
    destruct (@paginate_never_stops query max_total sleep script collected
                token Hlt Hgo) as (Hout & Hreq & _).
    split; assumption. }
  split; [intros Hlt final; apply paginate_returned; exact Hlt|].
  split.
  { intros Hlt Htok.
    destruct (nonempty (get_items last)) eqn:Hne.
    - rewrite paginate_no_token by assumption. reflexivity.
    - rewrite paginate_empty_page by assumption.
      destruct (get_items last); [|discriminate].
      rewrite app_nil_r. reflexivity. }
  intros Hkey Hpos. unfold fetch, extract_videos_for_query.
  rewrite Hkey. cbn [negb]. unfold map_outcome. cbn [outcome trace].
  assert (Hlt : (len (@nil Item) < max_total)%Z) by exact Hpos.
  split; [|split].
  - intros Hgo Hstop.
    destruct (@paginate_first_stop query max_total sleep prefix last rest []
                None Hlt Hgo Hstop) as (Hout & Hreq & Hcut).
    cbv zeta in Hout, Hreq, Hcut. rewrite <- Hcut, Hout.
    split; [reflexivity|]. split; [exact Hreq | reflexivity].
  - intros Hgo.
    destruct (@paginate_never_stops query max_total sleep script [] None
                Hlt Hgo) as (Hout & Hreq & _).
    cbv zeta in Hout, Hreq. rewrite Hout. split; [reflexivity | exact Hreq].
  - intros result Hret.
    destruct (outcome (paginate query max_total sleep script [] None))
      as [final|e|] eqn:Hout; try discriminate.
    apply (@paginate_returned query max_total sleep script [] None final Hlt
             Hout).
Qed.

(** C6, as the code has it.  [HttpError]s during a page request, any
    number of them in a row, at any state of the loop with budget left:
    each one is answered by a sleep of the fixed cooldown and the very same
    request again (same page size, same page token); what has been
    collected and the continuation token are unchanged, and the run goes on
    from that state as if the errors had not happened.  Errors alone never
    make the run raise or return: there is no retry ceiling, and each
    cooldown lasts the same 60 s.  The cooldown is strictly longer than the
    inter-page delay exactly when that delay is below 60 s, as the default
    of 1 s is.  Any other exception of a page request is not caught: after
    the retries it ends the run and reaches the caller.  The same holds of
    [extract_videos_for_query] itself when an API key is at hand. *)
Theorem C6_http_error_retries_same_page
    query max_total sleep (errors : list string) script collected token
    env_api_key api_key response e :
  (len collected < max_total)%Z ->
  let r := request_at query max_total collected token in
  let retries :=
    flat_map (fun _ => [EvExecute r; EvSleep retry_cooldown]) errors in
  let r0 := request_at query max_total (@nil Item) None in
  let retries0 :=
    flat_map (fun _ => [EvExecute r0; EvSleep retry_cooldown]) errors in
  let fetch script :=
    extract_videos_for_query env_api_key script query max_total api_key
      sleep in
  paginate query max_total sleep (map (@HttpError Item) errors ++ script)
    collected token
  = after retries (paginate query max_total sleep script collected token) /\
  paginate query max_total sleep (map (@HttpError Item) errors)
    collected token
  = {| outcome := Pending; trace := retries ++ [EvExecute r] |} /\
  paginate query max_total sleep
    (map (@HttpError Item) errors ++ OtherError e :: script) collected token
  = {| outcome := Raised e; trace := retries ++ [EvExecute r] |} /\
  (truthy (or_else api_key env_api_key) = true ->
   fetch (map (@HttpError Item) errors ++ script)
   = after retries0 (fetch script) /\
   fetch (map (@HttpError Item) errors)
   = {| outcome := Pending; trace := retries0 ++ [EvExecute r0] |} /\
   fetch (map (@HttpError Item) errors ++ OtherError e :: script)
   = {| outcome := Raised e; trace := retries0 ++ [EvExecute r0] |} /\
   (nonempty (get_items response) = true ->
    truthy (nextPageToken response) = false ->
    fetch (map (@HttpError Item) errors ++ ApiResponse response :: script)
    = {| outcome := Returned (slice_to (get_items response) max_total);
         trace := retries0 ++ [EvExecute r0] |})) /\
  sleeps retries = map (fun _ => retry_cooldown) errors /\
  ((sleep < retry_cooldown)%Q <-> (sleep < 60)%Q) /\
  ((sleep < retry_cooldown)%Q ->
   Forall (fun s => (sleep < s)%Q) (sleeps retries)) /\
  (default_sleep_between_pages < retry_cooldown)%Q.
Proof.
  intros Hlt r retries r0 retries0 fetch.
  assert (Hsleeps : forall r', sleeps (flat_map
            (fun _ : string => [EvExecute r'; EvSleep retry_cooldown]) errors)
          = map (fun _ => retry_cooldown) errors).
  { intro r'. induction errors as [|e' errors IH]; simpl;
      [reflexivity | f_equal; exact IH]. }
  assert (Hpos : (len (@nil Item) < max_total)%Z).
  { pose proof (len_nonneg collected). change (len (@nil Item)) with 0%Z. lia. }
  split; [apply paginate_errors; exact Hlt|].
  split.
  { rewrite <- (app_nil_r (map (@HttpError Item) errors)).
    rewrite paginate_errors by exact Hlt.
    rewrite paginate_eq. guard_holds. reflexivity. }
  split.
  { rewrite paginate_errors by exact Hlt.
    rewrite paginate_eq. guard_holds. reflexivity. }
  split.
  { intro Hkey. unfold fetch, extract_videos_for_query.
    rewrite Hkey. cbn [negb].
    split; [rewrite paginate_errors by exact Hpos; reflexivity|].
    split.
    { rewrite <- (app_nil_r (map (@HttpError Item) errors)).
      rewrite paginate_errors by exact Hpos.
      rewrite paginate_eq. guard_holds. reflexivity. }
    split.
    { rewrite paginate_errors by exact Hpos.
      rewrite paginate_eq. guard_holds. reflexivity. }
    intros Hne Htok. rewrite paginate_errors by exact Hpos.
    rewrite paginate_no_token by assumption. reflexivity. }
  split; [apply Hsleeps|].
  split; [reflexivity|].
  split.
  { intro Hshort. unfold retries. rewrite Hsleeps.
    apply Forall_forall. intros s Hin. apply in_map_iff in Hin.
    destruct Hin as (_ & <- & _). exact Hshort. }
  reflexivity.
Qed.

(** C3, as the code has it.  With an API key at hand, [max_total >= 0] and
    a script that reaches the end of the result set, the run returns, and
    the length of its result is exactly [min(max_total, total available)];
    in particular it never exceeds [max_total], however large the pages
    are. *)
Theorem C3_result_length
    env_api_key script query max_total api_key sleep :
  truthy (or_else api_key env_api_key) = true ->
  (0 <= max_total)%Z ->
  ends_result_set script = true ->
  exists result,
    outcome (extract_videos_for_query env_api_key script query max_total
               api_key sleep) = Returned result /\
    len result = Z.min max_total (total_available script) /\
    (len result <= max_total)%Z.
Proof.
  intros Hkey Hmax Hend. unfold extract_videos_for_query.
  rewrite Hkey. cbn [negb].
  destruct (@paginate_collects query max_total sleep script [] None Hend)
    as (final & Hout & Hlen).
  exists (slice_to final max_total). unfold map_outcome. cbn [outcome].
  rewrite Hout. split; [reflexivity|].
  rewrite slice_to_length by exact Hmax.
  change (len (@nil Item)) with 0%Z in Hlen. rewrite Z.add_0_l in Hlen.
  split; [exact Hlen | lia].
Qed.

End FetcherFacts.

(** *** The properties on the sample scripts *)

Lemma C10_witness :
  truthy (or_else (Some "key"%string) None) = true /\
  (-5 <= 0)%Z /\
  extract_videos_for_query None Samples.kpop_script "kpop" (-5)
    (Some "key"%string) default_sleep_between_pages
  = {| outcome := Returned []; trace := [] |}.
Proof.
  split; [reflexivity|]. split; [lia|].
  apply C10_nonpositive_budget_no_request; [reflexivity | lia].
Defined.

(** C8 on 120 numbered items. *)
Lemma C8_witness :
  let run :=
    extract_videos_for_query None Samples.kpop_script "kpop" 120
      (Some "key"%string) default_sleep_between_pages in
  outcome run = Returned (seq 0 50 ++ seq 50 50 ++ seq 100 20) /\
  len (seq 0 50 ++ seq 50 50 ++ seq 100 20) = 120%Z /\
  requests (trace run) =
    [search_list "kpop" 50 None;
     search_list "kpop" 50 (Some "CDIQAA"%string);
     search_list "kpop" 20 (Some "CGQQAA"%string)] /\
  length (requests (trace run)) = 3%nat.
Proof.
  apply (@C8_three_pages_of_120 nat None (Some "key"%string)
           default_sleep_between_pages (seq 0 50) (seq 50 50) (seq 100 20)
           "CDIQAA" "CGQQAA" None []); reflexivity.
Defined.

(** C5 on the 50/50/20 script with a budget of 500, behind an HttpError:
    the first two pages keep the run going, the third carries no
    continuation token and ends it with 120 items, far below the budget,
    after four requests. *)
Lemma C5_witness :
  let prefix :=
    [HttpError "quotaExceeded";
     page (seq 0 50) (Some "CDIQAA"%string);
     page (seq 50 50) (Some "CGQQAA"%string)] in
  let last := {| items := Some (seq 100 20); nextPageToken := None |} in
  let run :=
    extract_videos_for_query None
      (prefix ++ ApiResponse last :: Samples.kpop_script) "kpop" 500
      (Some "key"%string) default_sleep_between_pages in
  truthy (or_else (Some "key"%string) None) = true /\
  (0 < 500)%Z /\
  keeps_going 500 [] prefix = true /\
  stops 500 (all_items prefix) last = true /\
  outcome run
  = Returned (slice_to (all_items (prefix ++ [ApiResponse last])) 500) /\
  length (requests (trace run)) = 4%nat.
Proof.
  cbv zeta.
  split; [reflexivity|]. split; [reflexivity|]. split; [reflexivity|].
  split; [reflexivity|].
  destruct (@C5_pagination_stop_conditions nat None (Some "key"%string)
              "kpop" 500 default_sleep_between_pages
              [HttpError "quotaExceeded";
               page (seq 0 50) (Some "CDIQAA"%string);
               page (seq 50 50) (Some "CGQQAA"%string)]
              {| items := Some (seq 100 20); nextPageToken := None |}
              Samples.kpop_script [] [] None)
    as (_ & _ & _ & _ & _ & H).
  destruct (H eq_refl eq_refl) as (Hstop & _).
  destruct (Hstop eq_refl eq_refl) as (Hout & Hreq & _).
  split; [exact Hout | exact Hreq].
Defined.

(** C6 on two HttpErrors before the 50/50/20 script. *)
Lemma C6_witness :
  (len (@nil nat) < 120)%Z /\
  let r := request_at "kpop" 120 (@nil nat) None in
  let retries :=
    flat_map (fun _ => [EvExecute r; EvSleep retry_cooldown])
      ["quotaExceeded"; "backendError"]%string in
  extract_videos_for_query None
    (map (@HttpError nat) ["quotaExceeded"; "backendError"]%string
       ++ Samples.kpop_script) "kpop" 120 (Some "key"%string)
    default_sleep_between_pages
  = after retries
      (extract_videos_for_query None Samples.kpop_script "kpop" 120
         (Some "key"%string) default_sleep_between_pages) /\
  sleeps retries = [retry_cooldown; retry_cooldown].
Proof.
  split; [reflexivity|].
  destruct (@C6_http_error_retries_same_page nat "kpop" 120
              default_sleep_between_pages
              ["quotaExceeded"; "backendError"]%string
              Samples.kpop_script [] None None (Some "key"%string)
              {| items := None; nextPageToken := None |}
              (TimeoutError "timed out") eq_refl)
    as (_ & _ & _ & H & Hsleeps & _).
  destruct (H eq_refl) as (Hrun & _).
  split; [exact Hrun | exact Hsleeps].
Defined.

(** C6 as stated fails twice.  A page request that times out after the
    first page: the exception is not an [HttpError], nothing catches it,
    and the run raises it to the caller, with no sleep and no retry after
    the failed request.  And with an inter-page delay of 120 s the cooldown
    that follows an [HttpError], 60 s, is the shorter of the two sleeps of
    the run. *)
Lemma C6_counterexample :
  let timed_out :=
    extract_videos_for_query None
      [page [1%nat] (Some "CDIQAA"%string);
       OtherError (TimeoutError "timed out");
       page [2%nat] None] "kpop" 120 (Some "key"%string)
      default_sleep_between_pages in
  let slow :=
    extract_videos_for_query None
      [HttpError "quotaExceeded";
       page [1%nat] (Some "CDIQAA"%string);
       page [2%nat] None] "kpop" 120 (Some "key"%string) 120 in
  timed_out =
    {| outcome := Raised (TimeoutError "timed out");
       trace := [EvExecute (search_list "kpop" 50 None);
                 EvSleep default_sleep_between_pages;
                 EvExecute (search_list "kpop" 50 (Some "CDIQAA"%string))] |}
  /\
  outcome slow = Returned [1%nat; 2%nat] /\
  sleeps (trace slow) = [retry_cooldown; 120%Q] /\
  ~ (120 < retry_cooldown)%Q.
Proof.
  cbv zeta. split; [reflexivity|]. split; [reflexivity|].
  split; [reflexivity|]. intro H. discriminate H.
Qed.

(** C3 on the 50/50/20 script with a budget of 70. *)
Lemma C3_witness :
  truthy (or_else (Some "key"%string) None) = true /\
  (0 <= 70)%Z /\
  ends_result_set Samples.kpop_script = true /\
  exists result,
    outcome (extract_videos_for_query None Samples.kpop_script "kpop" 70
               (Some "key"%string) default_sleep_between_pages)
      = Returned result /\
    len result = Z.min 70 (total_available Samples.kpop_script) /\
    (len result <= 70)%Z.
Proof.
  split; [reflexivity|]. split; [lia|]. split; [reflexivity|].
  apply C3_result_length; [reflexivity | lia | reflexivity].
Defined.

(** C3 as stated fails on a negative [max_total]: the API has one item for
    the query, the run returns the empty list, whose length is neither
    [min(max_total, total available)] nor at most [max_total]. *)
Lemma C3_counterexample :
  let run :=
    extract_videos_for_query None Samples.one_item_script "kpop" (-1)
      (Some "key"%string) default_sleep_between_pages in
  ends_result_set Samples.one_item_script = true /\
  total_available Samples.one_item_script = 1%Z /\
  outcome run = Returned [] /\
  ~ (exists result,
       outcome run = Returned result /\
       len result = Z.min (-1) (total_available Samples.one_item_script)) /\
  ~ (exists result,
       outcome run = Returned result /\ (len result <= -1)%Z).
Proof.
  cbv zeta. split; [reflexivity|]. split; [reflexivity|].
  split; [reflexivity|]. split.
  - intros (result & Hout & Hlen). vm_compute in Hout.
    injection Hout as Hout. subst result. vm_compute in Hlen. discriminate.
  - intros (result & Hout & Hlen). vm_compute in Hout.
    injection Hout as Hout. subst result. vm_compute in Hlen.
    apply Hlen. reflexivity.
Qed.

End ExtractSpec.

(** ** The Sink Writer *)

Module LoadSpec.

Import Py PyFacts Load.

(** *** The conversion of the [published_at] column *)

Section Datetimes.

Variable env : Env.

Lemma convert_cells_coerce column cells :
  convert_cells (to_datetime_cell env column ErrorsCoerce) cells =
  inr (map (timestamp_of env column) cells).
Proof.
  induction cells as [|cell cells IH]; cbn [convert_cells map];
    [reflexivity|].
  rewrite IH. unfold to_datetime_cell, timestamp_of.
  destruct (isna cell); [reflexivity|].
  destruct (parse_datetime env column cell); reflexivity.
Qed.

(** Under [errors="coerce"] the conversion never raises: every cell gets
    its timestamp, or NaT. *)
Lemma to_datetime_coerce column :
  to_datetime env column ErrorsCoerce =
  inr (map (timestamp_of env column) column).
Proof. apply convert_cells_coerce. Qed.

(** Under [errors="raise"] a malformed cell makes the conversion raise. *)
Lemma convert_cells_raise column cells cell :
  In cell cells ->
  malformed env column cell = true ->
  exists e, convert_cells (to_datetime_cell env column ErrorsRaise) cells
            = inl e.
Proof.
  intros Hin Hbad. induction cells as [|cell' cells IH]; [destruct Hin|].
  cbn [convert_cells].
  destruct (to_datetime_cell env column ErrorsRaise cell') as [e|value]
    eqn:Hcell; [exists e; reflexivity|].
  destruct Hin as [->|Hin].
  - unfold to_datetime_cell in Hcell. unfold malformed in Hbad.
    apply andb_true_iff in Hbad. destruct Hbad as [Hna Hparse].
    apply negb_true_iff in Hna. rewrite Hna in Hcell.
    destruct (parse_datetime env column cell); discriminate.
  - destruct (IH Hin) as (e & He). rewrite He. exists e. reflexivity.
Qed.

Lemma assign_coerced column (csv : list CsvRow) :
  assign_published_at csv
    (map (timestamp_of env column) (map published_at csv)) =
  map (coerce_published_at env column) csv.
Proof.
  unfold assign_published_at.
  induction csv as [|r csv IH]; cbn [map combine]; [reflexivity|].
  rewrite IH. reflexivity.
Qed.

(** [load_csv], once the frame has been read and converted. *)
Lemma load_csv_unfold path engine if_exists w :
  load_csv env path engine if_exists w =
  match read_csv env path with
  | None => (inl (FileNotFoundError path), w)
  | Some csv =>
      begin env
        (load_csv_body engine if_exists
           (map (coerce_published_at env (map published_at csv)) csv)) w
  end.
Proof.
  unfold load_csv, bind, ret, raise.
  destruct (read_csv env path) as [csv|]; [|reflexivity].
  rewrite to_datetime_coerce, assign_coerced. reflexivity.
Qed.

End Datetimes.

Section Rows.

Implicit Types (rows : list Row) (r : DfRow) (k : string).

Lemma has_key_In k rows : has_key k rows = true <-> In k (map key rows).
Proof.
  unfold has_key. rewrite existsb_exists, in_map_iff. split.
  - intros (row & Hin & Heq). apply String.eqb_eq in Heq. exists row. auto.
  - intros (row & Heq & Hin). exists row. split; [exact Hin|].
    apply String.eqb_eq. exact Heq.
Qed.

Lemma has_key_false k rows : has_key k rows = false <-> ~ In k (map key rows).
Proof.
  rewrite <- has_key_In. destruct (has_key k rows); split; intro H;
    try discriminate; try reflexivity; try congruence.
Qed.

Lemma existsb_eqb_In k (l : list string) :
  existsb (String.eqb k) l = true <-> In k l.
Proof.
  rewrite existsb_exists. split.
  - intros (x & Hin & Heq). apply String.eqb_eq in Heq. subst. exact Hin.
  - intro Hin. exists k. split; [exact Hin | apply String.eqb_refl].
Qed.

Lemma existsb_eqb_not_In k (l : list string) :
  ~ In k l -> existsb (String.eqb k) l = false.
Proof.
  intro H. destruct (existsb (String.eqb k) l) eqn:E; [|reflexivity].
  apply existsb_eqb_In in E. contradiction.
Qed.

Lemma rows_with_key_app k rows1 rows2 :
  rows_with_key k (rows1 ++ rows2) =
  rows_with_key k rows1 ++ rows_with_key k rows2.
Proof. apply filter_app. Qed.

Lemma rows_with_key_none k rows :
  ~ In k (map key rows) -> rows_with_key k rows = [].
Proof.
  induction rows as [|row rows IH]; simpl; intro H; [reflexivity|].
  destruct (String.eqb_spec (key row) k) as [Heq|Hne].
  - exfalso. apply H. left. exact Heq.
  - apply IH. intro Hin. apply H. right. exact Hin.
Qed.

Lemma rows_with_key_some k rows :
  In k (map key rows) -> rows_with_key k rows <> [].
Proof.
  induction rows as [|row rows IH]; simpl; intro H; [contradiction|].
  destruct (String.eqb_spec (key row) k) as [Heq|Hne]; [discriminate|].
  apply IH. destruct H as [H|H]; [contradiction | exact H].
Qed.

(** Under the primary key a [video_id] has at most one row. *)
Lemma rows_with_key_unique k rows :
  NoDup (map key rows) ->
  rows_with_key k rows = [] \/ exists row, rows_with_key k rows = [row].
Proof.
  induction rows as [|row rows IH]; simpl; intro H; [left; reflexivity|].
  apply NoDup_cons_iff in H. destruct H as [Hnotin Hnd].
  destruct (String.eqb_spec (key row) k) as [Heq|Hne].
  - right. exists row. f_equal. apply rows_with_key_none. congruence.
  - apply IH. exact Hnd.
Qed.

Lemma rows_with_key_key k rows row :
  In row (rows_with_key k rows) -> key row = k.
Proof.
  unfold rows_with_key. rewrite filter_In. intros [_ H].
  apply String.eqb_eq. exact H.
Qed.

(** *** The merge on the rows *)

Lemma update_conflicting_key r row : key (update_conflicting r row) = key row.
Proof.
  unfold update_conflicting. destruct (String.eqb (key row) (video_id r));
    reflexivity.
Qed.

Lemma map_update_conflicting_keys r rows :
  map key (map (update_conflicting r) rows) = map key rows.
Proof.
  rewrite map_map. apply map_ext. intro row. apply update_conflicting_key.
Qed.

Lemma rows_with_key_update r k rows :
  rows_with_key k (map (update_conflicting r) rows) =
  map (update_conflicting r) (rows_with_key k rows).
Proof.
  induction rows as [|row rows IH]; simpl; [reflexivity|].
  rewrite update_conflicting_key.
  destruct (String.eqb (key row) k); simpl; rewrite IH; reflexivity.
Qed.

Lemma upsert_one_eq now r rows :
  upsert_one now r rows =
  if has_key (video_id r) rows then map (update_conflicting r) rows
  else rows ++ [insert_default now r].
Proof. reflexivity. Qed.

Lemma upsert_one_NoDup now r rows :
  NoDup (map key rows) -> NoDup (map key (upsert_one now r rows)).
Proof.
  intro H. rewrite upsert_one_eq.
  destruct (has_key (video_id r) rows) eqn:Hk.
  - rewrite map_update_conflicting_keys. exact H.
  - apply has_key_false in Hk. rewrite map_app. simpl.
    apply NoDup_app; [exact H | repeat constructor; intros [] | ].
    intros x Hx [Hx'|[]]. subst x. apply Hk. exact Hx.
Qed.

Lemma upsert_one_other now r k rows :
  k <> video_id r ->
  rows_with_key k (upsert_one now r rows) = rows_with_key k rows.
Proof.
  intro Hne. rewrite upsert_one_eq.
  destruct (has_key (video_id r) rows).
  - rewrite rows_with_key_update.
    rewrite <- (map_id (rows_with_key k rows)) at 2.
    apply map_ext_in. intros row Hin.
    apply rows_with_key_key in Hin. unfold update_conflicting.
    destruct (String.eqb_spec (key row) (video_id r)); [congruence|reflexivity].
  - rewrite rows_with_key_app. simpl.
    change (key (insert_default now r)) with (video_id r).
    destruct (String.eqb_spec (video_id r) k); [congruence|].
    apply app_nil_r.
Qed.

Lemma upsert_one_same now r rows :
  rows_with_key (video_id r) (upsert_one now r rows) =
  match rows_with_key (video_id r) rows with
  | [] => [insert_default now r]
  | olds => map (do_update r) olds
  end.
Proof.
  rewrite upsert_one_eq. destruct (has_key (video_id r) rows) eqn:Hk.
  - rewrite rows_with_key_update.
    assert (Hmap : map (update_conflicting r) (rows_with_key (video_id r) rows)
                   = map (do_update r) (rows_with_key (video_id r) rows)).
    { apply map_ext_in. intros row Hin. apply rows_with_key_key in Hin.
      unfold update_conflicting. rewrite Hin, String.eqb_refl. reflexivity. }
    rewrite Hmap. apply has_key_In, rows_with_key_some in Hk.
    destruct (rows_with_key (video_id r) rows); [contradiction|reflexivity].
  - apply has_key_false in Hk. rewrite rows_with_key_app.
    rewrite (rows_with_key_none _ _ Hk). simpl.
    change (key (insert_default now r)) with (video_id r).
    rewrite String.eqb_refl. reflexivity.
Qed.

Lemma upsert_all_NoDup now proposed : forall rows,
  NoDup (map key rows) -> NoDup (map key (upsert_all now proposed rows)).
Proof.
  induction proposed as [|r proposed IH]; intros rows H; simpl; [exact H|].
  apply IH, upsert_one_NoDup, H.
Qed.

Lemma upsert_all_other now k proposed : forall rows,
  ~ In k (map video_id proposed) ->
  rows_with_key k (upsert_all now proposed rows) = rows_with_key k rows.
Proof.
  induction proposed as [|r proposed IH]; intros rows H; simpl; [reflexivity|].
  simpl in H. rewrite IH by tauto. apply upsert_one_other.
  intro Heq. apply H. left. symmetry. exact Heq.
Qed.

Lemma upsert_all_same now r proposed : forall rows,
  NoDup (map video_id proposed) ->
  In r proposed ->
  rows_with_key (video_id r) (upsert_all now proposed rows) =
  match rows_with_key (video_id r) rows with
  | [] => [insert_default now r]
  | olds => map (do_update r) olds
  end.
Proof.
  induction proposed as [|r' proposed IH]; intros rows Hnd Hin;
    [contradiction|].
  simpl in Hnd. apply NoDup_cons_iff in Hnd. destruct Hnd as [Hnotin Hnd].
  simpl. destruct Hin as [Heq|Hin].
  - subst r'. rewrite upsert_all_other by exact Hnotin.
    apply upsert_one_same.
  - rewrite IH by assumption.
    rewrite upsert_one_other; [reflexivity|].
    intro Heq. apply Hnotin. rewrite <- Heq. apply in_map. exact Hin.
Qed.

(** With pairwise distinct keys in the batch the command touches no row
    twice and runs to its end. *)
Lemma insert_on_conflict_do_update_ok now proposed : forall affected rows,
  NoDup (map video_id proposed) ->
  (forall r, In r proposed -> ~ In (video_id r) affected) ->
  insert_on_conflict_do_update now proposed affected rows =
  inr (upsert_all now proposed rows).
Proof.
  induction proposed as [|r proposed IH]; intros affected rows Hnd Hfresh;
    [reflexivity|].
  simpl in Hnd. apply NoDup_cons_iff in Hnd. destruct Hnd as [Hnotin Hnd].
  assert (Hrec : forall r', In r' proposed ->
                 ~ In (video_id r') (video_id r :: affected)).
  { intros r' Hin [Heq|Haff].
    - apply Hnotin. rewrite Heq. apply in_map. exact Hin.
    - apply (Hfresh r'); [right; exact Hin | exact Haff]. }
  cbn [insert_on_conflict_do_update upsert_all fold_left].
  rewrite upsert_one_eq.
  destruct (has_key (video_id r) rows).
  - rewrite existsb_eqb_not_In by (apply Hfresh; left; reflexivity).
    apply IH; assumption.
  - apply IH; assumption.
Qed.

(** With a key that occurs twice in the batch the command fails, whatever
    the rows of the table are. *)
Lemma insert_on_conflict_do_update_twice now proposed : forall affected rows,
  (forall k, In k affected -> In k (map key rows)) ->
  ~ NoDup (map video_id proposed) \/
  (exists r, In r proposed /\ In (video_id r) affected) ->
  insert_on_conflict_do_update now proposed affected rows =
  inl CardinalityViolation.
Proof.
  induction proposed as [|r proposed IH]; intros affected rows Hinv Hdup.
  - destruct Hdup as [Hdup|(r & [] & _)]. exfalso. apply Hdup. constructor.
  - assert (Hnext : In (video_id r) affected \/
                    ~ NoDup (map video_id proposed) \/
                    (exists r', In r' proposed /\
                                In (video_id r') (video_id r :: affected))).
    { destruct Hdup as [Hdup|(r' & [Heq|Hin] & Haff)].
      - destruct (in_dec string_dec (video_id r) (map video_id proposed))
          as [Hin|Hnotin].
        + apply in_map_iff in Hin. destruct Hin as (r' & Heq & Hin).
          right. right. exists r'. split; [exact Hin|]. left. auto.
        + right. left. intro Hnd. apply Hdup. simpl. constructor; assumption.
      - subst r'. left. exact Haff.
      - right. right. exists r'. split; [exact Hin | right; exact Haff]. }
    cbn [insert_on_conflict_do_update].
    destruct (has_key (video_id r) rows) eqn:Hk.
    + destruct (existsb (String.eqb (video_id r)) affected) eqn:Haff;
        [reflexivity|].
      apply IH.
      * intros k [Hk'|Hk']; rewrite map_update_conflicting_keys.
        -- subst k. apply has_key_In. exact Hk.
        -- apply Hinv. exact Hk'.
      * destruct Hnext as [Hin|Hnext]; [|exact Hnext].
        apply existsb_eqb_In in Hin. congruence.
    + apply IH.
      * intros k Hk'. rewrite map_app. apply in_or_app.
        destruct Hk' as [Hk'|Hk']; [right; left; exact Hk' | left; auto].
      * destruct Hnext as [Hin|Hnext]; [|exact Hnext].
        apply Hinv in Hin. apply has_key_false in Hk. contradiction.
Qed.

Lemma do_update_cols r row :
  key row = video_id r ->
  do_update r row = {| cols := r; loaded_at := loaded_at row |}.
Proof.
  unfold do_update, key. intro H. rewrite H. destruct r; reflexivity.
Qed.

(** A second merge of the same rows changes nothing. *)
Lemma upsert_all_fixed now proposed rows :
  (forall r, In r proposed -> has_key (video_id r) rows = true) ->
  (forall r row, In r proposed -> In row rows -> key row = video_id r ->
                 cols row = r) ->
  upsert_all now proposed rows = rows.
Proof.
  induction proposed as [|r proposed IH]; intros Hkeys Hcols; [reflexivity|].
  cbn [upsert_all fold_left]. rewrite upsert_one_eq.
  rewrite Hkeys by (left; reflexivity).
  assert (Hid : map (update_conflicting r) rows = rows).
  { rewrite <- (map_id rows) at 2. apply map_ext_in. intros row Hin.
    unfold update_conflicting.
    destruct (String.eqb_spec (key row) (video_id r)) as [Heq|]; [|reflexivity].
    rewrite do_update_cols by exact Heq.
    rewrite <- (Hcols r row (or_introl eq_refl) Hin Heq).
    destruct row; reflexivity. }
  rewrite Hid. apply IH.
  - intros r' Hin. apply Hkeys. right. exact Hin.
  - intros r' row Hin. apply Hcols. right. exact Hin.
Qed.

(** After the merge, the rows of a key of the batch carry the columns of
    the batch. *)
Lemma upsert_all_cols now proposed rows r row :
  NoDup (map video_id proposed) ->
  In r proposed ->
  In row (upsert_all now proposed rows) ->
  key row = video_id r ->
  cols row = r.
Proof.
  intros Hnd Hin Hrow Hkey.
  assert (Hfil : In row (rows_with_key (video_id r)
                           (upsert_all now proposed rows))).
  { unfold rows_with_key. apply filter_In. split; [exact Hrow|].
    apply String.eqb_eq. exact Hkey. }
  rewrite (upsert_all_same now r proposed rows Hnd Hin) in Hfil.
  destruct (rows_with_key (video_id r) rows) as [|old olds] eqn:Holds.
  - destruct Hfil as [Heq|[]]. subst row. reflexivity.
  - apply in_map_iff in Hfil. destruct Hfil as (old' & Heq & Hold).
    rewrite <- Holds in Hold. apply rows_with_key_key in Hold.
    subst row. rewrite do_update_cols by exact Hold. reflexivity.
Qed.

Lemma upsert_all_has_key now proposed rows r :
  NoDup (map video_id proposed) ->
  In r proposed ->
  has_key (video_id r) (upsert_all now proposed rows) = true.
Proof.
  intros Hnd Hin.
  destruct (has_key (video_id r) (upsert_all now proposed rows)) eqn:Hk;
    [reflexivity|].
  apply has_key_false, rows_with_key_none in Hk.
  rewrite (upsert_all_same now r proposed rows Hnd Hin) in Hk.
  destruct (rows_with_key (video_id r) rows); discriminate.
Qed.

(** The row of a key of the batch after the merge, under the primary key:
    a new row with [loaded_at] at its default, or the old row with the
    columns of the batch and its old [loaded_at]. *)
Lemma upsert_all_row now proposed rows r :
  NoDup (map key rows) ->
  NoDup (map video_id proposed) ->
  In r proposed ->
  (rows_with_key (video_id r) rows = [] /\
   rows_with_key (video_id r) (upsert_all now proposed rows) =
   [{| cols := r; loaded_at := Some now |}])
  \/
  (exists old,
     rows_with_key (video_id r) rows = [old] /\
     rows_with_key (video_id r) (upsert_all now proposed rows) =
     [{| cols := r; loaded_at := loaded_at old |}]).
Proof.
  intros Hrows Hnd Hin.
  rewrite (upsert_all_same now r proposed rows Hnd Hin).
  destruct (rows_with_key_unique (video_id r) rows Hrows) as [Hnone|(old & Hold)].
  - left. rewrite Hnone. split; reflexivity.
  - right. exists old. rewrite Hold. split; [reflexivity|].
    simpl. rewrite do_update_cols; [reflexivity|].
    apply (rows_with_key_key (video_id r) rows). rewrite Hold. left. reflexivity.
Qed.

End Rows.

(** *** Plain inserts *)

Section Append.

Implicit Types (rows : list Row) (df : list DfRow) (k : string).

(** When the inserts go through, the rows of the frame have been added at
    the end, all of them. *)
Lemma insert_rows_appends now s df : forall rows rows',
  insert_rows now s df rows = inr rows' ->
  rows' = rows ++ map (inserted now s) df.
Proof.
  induction df as [|r df IH]; intros rows rows' H; simpl in H.
  - inversion H. rewrite app_nil_r. reflexivity.
  - destruct s.
    + destruct (has_key (video_id r) rows); [discriminate|].
      apply IH in H. rewrite H, <- app_assoc. reflexivity.
    + apply IH in H. rewrite H, <- app_assoc. reflexivity.
Qed.

Lemma insert_rows_inferred now df : forall rows,
  insert_rows now Inferred df rows = inr (rows ++ map insert_plain df).
Proof.
  induction df as [|r df IH]; intros rows; simpl.
  - rewrite app_nil_r. reflexivity.
  - rewrite IH, <- app_assoc. reflexivity.
Qed.

(** A frame written as it is has as many rows of a key as the frame has
    records of that key. *)
Lemma rows_with_key_written (f : DfRow -> Row) k df :
  (forall r, key (f r) = video_id r) ->
  length (rows_with_key k (map f df)) =
  count_occ string_dec (map video_id df) k.
Proof.
  intro Hf. induction df as [|r df IH]; simpl; [reflexivity|].
  rewrite Hf. destruct (string_dec (video_id r) k) as [Heq|Hne].
  - rewrite Heq, String.eqb_refl. simpl. rewrite IH. reflexivity.
  - destruct (String.eqb_spec (video_id r) k); [contradiction|]. exact IH.
Qed.

Lemma inserted_key now s r : key (inserted now s r) = video_id r.
Proof. destruct s; reflexivity. Qed.

Lemma count_occ_twice_not_NoDup (l : list string) k :
  (2 <= count_occ string_dec l k)%nat -> ~ NoDup l.
Proof.
  intros H Hnd. rewrite (NoDup_count_occ string_dec) in Hnd.
  specialize (Hnd k). lia.
Qed.

(** Whatever [to_sql] does to [youtube_videos], when it goes through the
    table holds every record of the frame. *)
Lemma to_sql_table_written now df if_exists db db' :
  to_sql_table now df if_exists db = inr db' ->
  exists before s, table_rows db' = before ++ map (inserted now s) df.
Proof.
  unfold to_sql_table, table_rows.
  destruct (String.eqb if_exists "append").
  - destruct (youtube_videos db) as [t|].
    + destruct (insert_rows now (schema t) df (rows t)) as [e|rows'] eqn:Hins;
        [discriminate|].
      intro H. inversion H. cbn [youtube_videos rows].
      exists (rows t), (schema t). apply insert_rows_appends. exact Hins.
    + intro H. inversion H. cbn [youtube_videos rows].
      exists [], Inferred. reflexivity.
  - destruct (String.eqb if_exists "replace").
    + intro H. inversion H. cbn [youtube_videos rows].
      exists [], Inferred. reflexivity.
    + destruct (String.eqb if_exists "fail"); [|discriminate].
      destruct (youtube_videos db); [discriminate|].
      intro H. inversion H. cbn [youtube_videos rows].
      exists [], Inferred. reflexivity.
Qed.

(** **** Only the keys decide whether a statement goes through *)

Lemma has_key_keys k rows1 rows2 :
  map key rows1 = map key rows2 -> has_key k rows1 = has_key k rows2.
Proof.
  intro H. apply Bool.eq_iff_eq_true. rewrite !has_key_In, H. tauto.
Qed.

Lemma insert_on_conflict_do_update_keys now1 now2 :
  forall (p1 p2 : list DfRow) affected rows1 rows2,
  map video_id p1 = map video_id p2 ->
  map key rows1 = map key rows2 ->
  match insert_on_conflict_do_update now1 p1 affected rows1,
        insert_on_conflict_do_update now2 p2 affected rows2 with
  | inl e1, inl e2 => e1 = e2
  | inr rows1', inr rows2' => map key rows1' = map key rows2'
  | _, _ => False
  end.
Proof.
  induction p1 as [|r1 p1 IH]; intros [|r2 p2] affected rows1 rows2 Hp Hrows;
    try discriminate; [exact Hrows|].
  simpl in Hp. injection Hp as Hk Hp.
  cbn [insert_on_conflict_do_update].
  rewrite <- Hk, <- (has_key_keys (video_id r1) rows1 rows2 Hrows).
  destruct (has_key (video_id r1) rows1).
  - destruct (existsb (String.eqb (video_id r1)) affected); [reflexivity|].
    apply IH; [exact Hp|]. rewrite !map_update_conflicting_keys. exact Hrows.
  - apply IH; [exact Hp|]. rewrite !map_app, Hrows. simpl.
    unfold key. simpl. rewrite Hk. reflexivity.
Qed.

Lemma insert_rows_keys now1 now2 s :
  forall (df1 df2 : list DfRow) rows1 rows2,
  map video_id df1 = map video_id df2 ->
  map key rows1 = map key rows2 ->
  match insert_rows now1 s df1 rows1, insert_rows now2 s df2 rows2 with
  | inl e1, inl e2 => e1 = e2
  | inr _, inr _ => True
  | _, _ => False
  end.
Proof.
  induction df1 as [|r1 df1 IH]; intros [|r2 df2] rows1 rows2 Hdf Hrows;
    try discriminate; [exact I|].
  simpl in Hdf. injection Hdf as Hk Hdf.
  cbn [insert_rows]. destruct s.
  - rewrite <- Hk, <- (has_key_keys (video_id r1) rows1 rows2 Hrows).
    destruct (has_key (video_id r1) rows1); [reflexivity|].
    apply IH; [exact Hdf|]. rewrite !map_app, Hrows. simpl.
    unfold key. simpl. rewrite Hk. reflexivity.
  - apply IH; [exact Hdf|]. rewrite !map_app, Hrows. simpl.
    unfold key. simpl. rewrite Hk. reflexivity.
Qed.

(** Two frames with the same keys in the same order: the block of
    [load_csv] raises the same exception on both or goes through on
    both. *)
Lemma load_csv_body_keys engine if_exists (df1 df2 : list DfRow) now1 now2 db :
  map video_id df1 = map video_id df2 ->
  match load_csv_body engine if_exists df1 now1 db,
        load_csv_body engine if_exists df2 now2 db with
  | inl e1, inl e2 => e1 = e2
  | inr _, inr _ => True
  | _, _ => False
  end.
Proof.
  intro Hdf. unfold load_csv_body.
  destruct (String.eqb (name (dialect engine)) "postgresql").
  - unfold and_then, to_sql_temp_table, merge_sql, drop_temp_table.
    cbn [youtube_videos tmp_youtube_load].
    destruct (youtube_videos db) as [t|]; [|reflexivity].
    destruct (schema t); [|reflexivity].
    pose proof (insert_on_conflict_do_update_keys now1 now2 df1 df2 []
                  (rows t) (rows t) Hdf eq_refl) as H.
    destruct (insert_on_conflict_do_update now1 df1 [] (rows t)),
             (insert_on_conflict_do_update now2 df2 [] (rows t));
      cbn [tmp_youtube_load]; try contradiction; [exact H | exact I].
  - unfold to_sql_table.
    destruct (String.eqb if_exists "append").
    + destruct (youtube_videos db) as [t|]; [|exact I].
      pose proof (insert_rows_keys now1 now2 (schema t) df1 df2
                    (rows t) (rows t) Hdf eq_refl) as H.
      destruct (insert_rows now1 (schema t) df1 (rows t)),
               (insert_rows now2 (schema t) df2 (rows t));
        try contradiction; [exact H | exact I].
    + destruct (String.eqb if_exists "replace"); [exact I|].
      destruct (String.eqb if_exists "fail"); [|reflexivity].
      destruct (youtube_videos db); [reflexivity | exact I].
Qed.

(** On PostgreSQL the block goes through only by a merge into the table of
    [ensure_table]; what it leaves is that table with the merged rows and
    no staging table. *)
Lemma load_csv_body_postgresql engine if_exists df now db db' :
  name (dialect engine) = "postgresql"%string ->
  load_csv_body engine if_exists df now db = inr db' ->
  exists t rows',
    youtube_videos db = Some t /\ schema t = Ensured /\
    insert_on_conflict_do_update now df [] (rows t) = inr rows' /\
    db' = {| youtube_videos := Some {| schema := Ensured; rows := rows' |};
             tmp_youtube_load := None |}.
Proof.
  intros Hd. unfold load_csv_body. rewrite Hd. cbn [String.eqb Ascii.eqb Bool.eqb].
  unfold and_then, to_sql_temp_table, merge_sql, drop_temp_table.
  cbn [youtube_videos tmp_youtube_load].
  destruct (youtube_videos db) as [t|]; [|discriminate].
  destruct (schema t) eqn:Hs; [|discriminate].
  destruct (insert_on_conflict_do_update _ _ _ _) as [e|rows'] eqn:Hm;
    [discriminate|].
  cbn [tmp_youtube_load youtube_videos]. intro H. inversion H.
  exists t, rows'. auto.
Qed.

(** A merge that goes through had pairwise distinct keys to merge. *)
Lemma insert_on_conflict_do_update_NoDup now proposed rows rows' :
  insert_on_conflict_do_update now proposed [] rows = inr rows' ->
  NoDup (map video_id proposed).
Proof.
  intro H.
  destruct (ListDec.NoDup_dec string_dec (map video_id proposed))
    as [Hnd|Hdup]; [exact Hnd|].
  rewrite insert_on_conflict_do_update_twice in H;
    [discriminate | intros k [] | left; exact Hdup].
Qed.

(** **** The primary key is an invariant *)

Lemma NoDup_keys_snoc rows (row : Row) :
  NoDup (map key rows) ->
  has_key (key row) rows = false ->
  NoDup (map key (rows ++ [row])).
Proof.
  intros H Hk. apply has_key_false in Hk. rewrite map_app. simpl.
  apply NoDup_app; [exact H | repeat constructor; intros [] | ].
  intros x Hx [Hx'|[]]. subst x. apply Hk. exact Hx.
Qed.

Lemma insert_rows_NoDup now df : forall rows rows',
  insert_rows now Ensured df rows = inr rows' ->
  NoDup (map key rows) ->
  NoDup (map key rows').
Proof.
  induction df as [|r df IH]; intros rows rows' H Hnd; simpl in H.
  - inversion H. subst. exact Hnd.
  - destruct (has_key (video_id r) rows) eqn:Hk; [discriminate|].
    apply (IH _ _ H). apply NoDup_keys_snoc; assumption.
Qed.

(** Every block of [load_csv] that goes through leaves a table that
    satisfies its primary key. *)
Lemma load_csv_body_primary_key engine if_exists df now db db' :
  primary_key_holds db ->
  load_csv_body engine if_exists df now db = inr db' ->
  primary_key_holds db'.
Proof.
  intros Hinv Hbody.
  destruct (String.eqb_spec (name (dialect engine)) "postgresql") as [Hd|Hd].
  - destruct (load_csv_body_postgresql _ _ _ _ _ Hd Hbody)
      as (t & rows' & Ht & Hs & Hm & Hdb').
    subst db'. unfold primary_key_holds in *. cbn [youtube_videos schema rows].
    rewrite Ht in Hinv. intros _.
    pose proof (insert_on_conflict_do_update_NoDup _ _ _ Hm) as Hnd.
    rewrite insert_on_conflict_do_update_ok in Hm;
      [ | exact Hnd | intros r' _ [] ].
    injection Hm as Hm. subst rows'. apply upsert_all_NoDup, Hinv, Hs.
  - unfold load_csv_body in Hbody.
    destruct (String.eqb_spec (name (dialect engine)) "postgresql");
      [contradiction|].
    unfold to_sql_table in Hbody. unfold primary_key_holds in *.
    destruct (String.eqb if_exists "append").
    + destruct (youtube_videos db) as [t|].
      * destruct (insert_rows now (schema t) df (rows t)) as [e|rows'] eqn:Hins;
          [discriminate|].
        inversion Hbody. cbn [youtube_videos schema rows]. intro Hs.
        rewrite Hs in Hins. apply (insert_rows_NoDup _ _ _ Hins). auto.
      * inversion Hbody. cbn [youtube_videos schema]. discriminate.
    + destruct (String.eqb if_exists "replace").
      * inversion Hbody. cbn [youtube_videos schema]. discriminate.
      * destruct (String.eqb if_exists "fail"); [|discriminate].
        destruct (youtube_videos db); [discriminate|].
        inversion Hbody. cbn [youtube_videos schema]. discriminate.
Qed.

End Append.

(** *** [load_csv] in general *)

Section AnyDialect.

Variables (env : Env) (path : string) (engine : Engine) (if_exists : string).
Variable csv : list CsvRow.
Hypothesis Hread : read_csv env path = Some csv.

Lemma load_csv_eq w :
  load_csv env path engine if_exists w =
  match load_csv_body engine if_exists
          (map (coerce_published_at env (map published_at csv)) csv)
          (clock env (transactions w)) (database w) with
  | inr db =>
      (inr tt,
       {| database := db;
          transactions := S (transactions w);
          journal := journal w ++ [EvBegin; EvCommit] |})
  | inl e => (inl e, rolled_back w)
  end.
Proof.
  rewrite load_csv_unfold, Hread. unfold begin.
  destruct (load_csv_body _ _ _ _ _); reflexivity.
Qed.

(** C4.  A file with two records of the same [video_id] is never absorbed
    into one row.  Whatever the dialect, the state of the database and
    [if_exists]: the load does not both go through and leave exactly one
    row for that key.  On PostgreSQL the load always raises, the
    transaction is rolled back and the database is as it was; with the
    table of [ensure_table] the exception is the cardinality violation of
    the merge statement. *)
Theorem C4_duplicate_key_in_batch_is_not_merged w k :
  (2 <= count_occ string_dec (map video_id csv) k)%nat ->
  let result := load_csv env path engine if_exists w in
  ~ (fst result = inr tt /\
     length (rows_with_key k (destination (snd result))) = 1%nat) /\
  (name (dialect engine) = "postgresql"%string ->
   (exists e, fst result = inl e) /\
   database (snd result) = database w /\
   (forall t, youtube_videos (database w) = Some t -> schema t = Ensured ->
              fst result = inl CardinalityViolation)).
Proof.
  intros Hk result.
  set (df := map (coerce_published_at env (map published_at csv)) csv).
  assert (Hk' : (2 <= count_occ string_dec (map video_id df) k)%nat)
    by (unfold df; rewrite map_map; exact Hk).
  assert (Hdup : ~ NoDup (map video_id df))
    by (apply count_occ_twice_not_NoDup with (k := k); exact Hk').
  assert (Hpg : name (dialect engine) = "postgresql"%string ->
                exists e, load_csv_body engine if_exists df
                            (clock env (transactions w)) (database w) = inl e).
  { intro Hd.
    destruct (load_csv_body engine if_exists df (clock env (transactions w))
                (database w)) as [e|db'] eqn:Hbody; [exists e; reflexivity|].
    apply load_csv_body_postgresql in Hbody; [|exact Hd].
    destruct Hbody as (t & rows' & _ & _ & Hm & _).
    apply insert_on_conflict_do_update_NoDup in Hm. contradiction. }
  unfold result. rewrite load_csv_eq. fold df. split.
  - destruct (load_csv_body engine if_exists df (clock env (transactions w))
                (database w)) as [e|db'] eqn:Hbody.
    + cbn [fst]. intros [Habs _]. discriminate.
    + cbn [fst snd]. unfold destination. cbn [database]. intros [_ Hone].
      destruct (String.eqb_spec (name (dialect engine)) "postgresql")
        as [Hd|Hd].
      * destruct (Hpg Hd) as (e & He). discriminate.
      * unfold load_csv_body in Hbody.
        destruct (String.eqb_spec (name (dialect engine)) "postgresql");
          [contradiction|].
        apply to_sql_table_written in Hbody.
        destruct Hbody as (before & s & Hrows).
        rewrite Hrows, rows_with_key_app, length_app in Hone.
        rewrite (rows_with_key_written (inserted _ s) k df) in Hone
          by (intro; apply inserted_key).
        lia.
  - intro Hd. destruct (Hpg Hd) as (e & He). rewrite He. cbn [fst snd].
    split; [exists e; reflexivity|]. split; [reflexivity|].
    intros t Ht Hs. unfold load_csv_body in He. rewrite Hd in He.
    cbn [String.eqb Ascii.eqb Bool.eqb] in He.
    unfold and_then, to_sql_temp_table, merge_sql in He.
    cbn [youtube_videos tmp_youtube_load] in He. rewrite Ht, Hs in He.
    rewrite insert_on_conflict_do_update_twice in He;
      [ | intros k' [] | left; exact Hdup ].
    congruence.
Qed.

End AnyDialect.

(** *** [load_csv] on PostgreSQL *)

Section Postgresql.

Variables (env : Env) (path : string) (engine : Engine) (if_exists : string).
Variable csv : list CsvRow.

Hypothesis Hdialect : name (dialect engine) = "postgresql"%string.
Hypothesis Hread : read_csv env path = Some csv.

Lemma coerce_keys :
  map video_id (map (coerce_published_at env (map published_at csv)) csv)
  = map video_id csv.
Proof. rewrite map_map. reflexivity. Qed.

Lemma load_csv_postgresql w t :
  youtube_videos (database w) = Some t ->
  schema t = Ensured ->
  load_csv env path engine if_exists w =
  match insert_on_conflict_do_update (clock env (transactions w))
          (map (coerce_published_at env (map published_at csv)) csv) []
          (rows t) with
  | inr rows' => (inr tt, committed w rows')
  | inl e => (inl e, rolled_back w)
  end.
Proof.
  intros Ht Hs. rewrite load_csv_unfold. unfold begin, load_csv_body.
  rewrite Hread, Hdialect.
  cbn [String.eqb Ascii.eqb Bool.eqb]. unfold and_then, to_sql_temp_table, merge_sql.
  cbn [youtube_videos tmp_youtube_load]. rewrite Ht, Hs.
  destruct (insert_on_conflict_do_update _ _ _ _) as [e|rows']; reflexivity.
Qed.

(** With pairwise distinct keys in the file, the load commits the merge. *)
Lemma load_csv_postgresql_ok w t :
  youtube_videos (database w) = Some t ->
  schema t = Ensured ->
  NoDup (map video_id csv) ->
  load_csv env path engine if_exists w =
  (inr tt,
   committed w
     (upsert_all (clock env (transactions w))
        (map (coerce_published_at env (map published_at csv)) csv) (rows t))).
Proof.
  intros Ht Hs Hnd. rewrite (load_csv_postgresql w Ht Hs).
  rewrite insert_on_conflict_do_update_ok;
    [reflexivity | rewrite coerce_keys; exact Hnd | intros r _ []].
Qed.

(** C2, as the code has it.  On PostgreSQL, with the table of
    [ensure_table] and a file whose [video_id]s are pairwise distinct, the
    load commits, and afterwards:
    - a record whose [video_id] was in the table has exactly one row, with
      the incoming values in all six columns and the [loaded_at] the row
      had before (the SET list of the merge does not name [loaded_at]);
    - a record whose [video_id] was not in the table has exactly one row,
      with the incoming values and [loaded_at] at the transaction's
      [NOW()];
    - the rows of every [video_id] not in the file are what they were. *)
Theorem C2_merge_overwrites_or_inserts w t :
  youtube_videos (database w) = Some t ->
  schema t = Ensured ->
  NoDup (map key (rows t)) ->
  NoDup (map video_id csv) ->
  let now := clock env (transactions w) in
  let result := load_csv env path engine if_exists w in
  fst result = inr tt /\
  (forall r, In r csv ->
     let incoming := coerce_published_at env (map published_at csv) r in
     (exists old,
        rows_with_key (video_id r) (rows t) = [old] /\
        rows_with_key (video_id r) (destination (snd result)) =
        [{| cols := incoming; loaded_at := loaded_at old |}])
     \/
     (rows_with_key (video_id r) (rows t) = [] /\
      rows_with_key (video_id r) (destination (snd result)) =
      [{| cols := incoming; loaded_at := Some now |}])) /\
  (forall k, ~ In k (map video_id csv) ->
     rows_with_key k (destination (snd result)) = rows_with_key k (rows t)).
Proof.
  intros Ht Hs Hrows Hnd now result. unfold result.
  rewrite (load_csv_postgresql_ok w Ht Hs Hnd).
  cbn [fst snd]. unfold destination, table_rows, committed.
  cbn [database youtube_videos rows].
  split; [reflexivity|]. split.
  - intros r Hin.
    set (incoming := coerce_published_at env (map published_at csv) r).
    assert (Hin' : In incoming
                     (map (coerce_published_at env (map published_at csv)) csv))
      by (apply in_map; exact Hin).
    assert (Hnd' : NoDup (map video_id
                            (map (coerce_published_at env
                                    (map published_at csv)) csv)))
      by (rewrite coerce_keys; exact Hnd).
    destruct (@upsert_all_row (clock env (transactions w)) _ (rows t) _
                Hrows Hnd' Hin') as [[Hnone Hnew]|(old & Hold & Hnew)].
    + right. split; [exact Hnone | exact Hnew].
    + left. exists old. split; [exact Hold | exact Hnew].
  - intros k Hk. apply upsert_all_other. rewrite coerce_keys. exact Hk.
Qed.

(** C1, as the code has it.  On PostgreSQL, with the table of
    [ensure_table] and a file whose [video_id]s are pairwise distinct,
    loading the file twice commits twice; the second load leaves the
    database exactly as the first left it, and every [video_id] of the file
    has exactly one row. *)
Theorem C1_upsert_idempotent_on_postgresql w t :
  youtube_videos (database w) = Some t ->
  schema t = Ensured ->
  NoDup (map key (rows t)) ->
  NoDup (map video_id csv) ->
  let first := load_csv env path engine if_exists w in
  let second := load_csv env path engine if_exists (snd first) in
  fst first = inr tt /\
  fst second = inr tt /\
  database (snd second) = database (snd first) /\
  (forall k, In k (map video_id csv) ->
     length (rows_with_key k (destination (snd first))) = 1%nat /\
     length (rows_with_key k (destination (snd second))) = 1%nat).
Proof.
  intros Ht Hs Hrows Hnd first second. unfold second, first.
  rewrite (load_csv_postgresql_ok w Ht Hs Hnd). cbn [fst snd].
  set (df := map (coerce_published_at env (map published_at csv)) csv).
  set (rows1 := upsert_all (clock env (transactions w)) df (rows t)).
  assert (Hnd' : NoDup (map video_id df))
    by (unfold df; rewrite coerce_keys; exact Hnd).
  rewrite (@load_csv_postgresql_ok (committed w rows1)
             {| schema := Ensured; rows := rows1 |} eq_refl eq_refl Hnd).
  cbn [fst snd]. fold df. cbn [rows].
  assert (Hfix : upsert_all (clock env (transactions (committed w rows1)))
                   df rows1 = rows1).
  { apply upsert_all_fixed.
    - intros r Hin. apply upsert_all_has_key; assumption.
    - intros r row Hin Hrow Hkey.
      apply (@upsert_all_cols (clock env (transactions w)) df (rows t));
        assumption. }
  rewrite Hfix. unfold destination, table_rows, committed.
  cbn [database youtube_videos rows].
  split; [reflexivity|]. split; [reflexivity|]. split; [reflexivity|].
  intros k Hk. rewrite <- coerce_keys in Hk. fold df in Hk.
  apply in_map_iff in Hk. destruct Hk as (r & Hkey & Hin). subst k.
  destruct (@upsert_all_row (clock env (transactions w)) _ (rows t) _
              Hrows Hnd' Hin) as [[_ Hnew]|(old & _ & Hnew)];
    fold rows1 in Hnew; rewrite Hnew; split; reflexivity.
Qed.

End Postgresql.

(** *** The primary key across the functions of the module *)

Section PrimaryKey.

Variable env : Env.

Lemma load_csv_primary_key path engine if_exists w :
  primary_key_holds (database w) ->
  primary_key_holds (database (snd (load_csv env path engine if_exists w))).
Proof.
  intro Hinv. rewrite load_csv_unfold. unfold begin.
  destruct (read_csv env path) as [csv|]; [|exact Hinv].
  destruct (load_csv_body engine if_exists _ _ (database w)) as [e|db']
    eqn:Hbody; cbn [snd database]; [exact Hinv|].
  apply (@load_csv_body_primary_key _ _ _ _ _ _ Hinv Hbody).
Qed.

Lemma ensure_table_primary_key engine w :
  primary_key_holds (database w) ->
  primary_key_holds (database (snd (ensure_table env engine w))).
Proof.
  intro Hinv. unfold ensure_table, begin, execute_ddl.
  destruct (ddl_rejected env engine); [exact Hinv|].
  unfold create_table_if_not_exists.
  destruct (youtube_videos (database w)) eqn:Ht; cbn [snd database];
    [exact Hinv|].
  unfold primary_key_holds. cbn [youtube_videos rows]. intros _. constructor.
Qed.

Lemma for_each_load_csv_primary_key engine paths : forall w,
  primary_key_holds (database w) ->
  primary_key_holds
    (database (snd (for_each paths
                      (fun csv_path => load_csv env csv_path engine "append")
                      w))).
Proof.
  induction paths as [|path paths IH]; intros w Hinv; [exact Hinv|].
  cbn [for_each]. unfold bind.
  pose proof (load_csv_primary_key path engine "append" w Hinv) as Hstep.
  destruct (load_csv env path engine "append" w) as [[e|[]] w'];
    cbn [snd] in *; [exact Hstep | apply IH; exact Hstep].
Qed.

(** Whatever [run_load] does, the table of [ensure_table] has at most one
    row per [video_id] afterwards if it had before. *)
Lemma run_load_primary_key env_DB_URL context w :
  primary_key_holds (database w) ->
  primary_key_holds (database (snd (run_load env env_DB_URL context w))).
Proof.
  intro Hinv. unfold run_load, raise.
  destruct (or_else (params_db_url context) env_DB_URL) as [db_url|];
    [|exact Hinv].
  destruct (negb (truthy (Some db_url))); [exact Hinv|].
  destruct (ti_xcom_pull context "processed_paths" _) as [paths|];
    [|exact Hinv].
  destruct (negb (nonempty paths)); [exact Hinv|].
  unfold bind, get_engine.
  destruct (create_engine env db_url) as [engine|]; [|exact Hinv].
  pose proof (ensure_table_primary_key engine
                {| database := database w;
                   transactions := transactions w;
                   journal := journal w ++ [EvConnect db_url] |} Hinv)
    as Hensured.
  destruct (ensure_table env engine _) as [[e|[]] w'];
    cbn [snd] in *; [exact Hensured|].
  apply for_each_load_csv_primary_key. exact Hensured.
Qed.

End PrimaryKey.

(** *** Malformed timestamps *)

Section Coercion.

Variables (env : Env) (path : string) (engine : Engine) (if_exists : string).
Variable csv : list CsvRow.
Hypothesis Hread : read_csv env path = Some csv.

(** A load that goes through has written every record of the file. *)
Lemma load_csv_keeps_rows w r :
  In r csv ->
  fst (load_csv env path engine if_exists w) = inr tt ->
  exists row,
    In row (destination (snd (load_csv env path engine if_exists w))) /\
    cols row = coerce_published_at env (map published_at csv) r.
Proof.
  intros Hin. rewrite (@load_csv_eq env path engine if_exists csv Hread w).
  set (df := map (coerce_published_at env (map published_at csv)) csv).
  assert (Hin' : In (coerce_published_at env (map published_at csv) r) df)
    by (apply in_map; exact Hin).
  destruct (load_csv_body engine if_exists df (clock env (transactions w))
              (database w)) as [e|db'] eqn:Hbody; [discriminate|].
  intros _. cbn [snd]. unfold destination. cbn [database].
  destruct (String.eqb_spec (name (dialect engine)) "postgresql") as [Hd|Hd].
  - apply load_csv_body_postgresql in Hbody; [|exact Hd].
    destruct Hbody as (t & rows' & _ & _ & Hm & Hdb'). subst db'.
    cbn [table_rows youtube_videos rows].
    pose proof (insert_on_conflict_do_update_NoDup _ _ _ Hm) as Hnd.
    rewrite insert_on_conflict_do_update_ok in Hm;
      [ | exact Hnd | intros r' _ [] ].
    injection Hm as Hm. rewrite <- Hm.
    pose proof (@upsert_all_has_key (clock env (transactions w)) df (rows t)
                  _ Hnd Hin') as Hk.
    apply has_key_In, in_map_iff in Hk. destruct Hk as (row & Hkey & Hrow).
    exists row. split; [exact Hrow|].
    apply (@upsert_all_cols (clock env (transactions w)) df (rows t));
      assumption.
  - unfold load_csv_body in Hbody.
    destruct (String.eqb_spec (name (dialect engine)) "postgresql");
      [contradiction|].
    apply to_sql_table_written in Hbody.
    destruct Hbody as (before & s & Hrows). rewrite Hrows.
    exists (inserted (clock env (transactions w)) s
              (coerce_published_at env (map published_at csv) r)).
    split; [|destruct s; reflexivity].
    apply in_or_app. right. apply in_map. exact Hin'.
Qed.

(** What the conversion makes of a malformed cell. *)
Lemma coerce_malformed r :
  malformed env (map published_at csv) (published_at r) = true ->
  coerce_published_at env (map published_at csv) r
  = set_published_at r (@None Timestamp).
Proof.
  unfold malformed, coerce_published_at, timestamp_of. intro Hbad.
  apply andb_true_iff in Hbad. destruct Hbad as [Hna Hparse].
  apply negb_true_iff in Hna. rewrite Hna.
  destruct (parse_datetime env _ _); [discriminate | reflexivity].
Qed.

(** Off PostgreSQL, a load that replaces the table, or that appends to a
    table without primary key or creates the table, goes through and
    writes every row of the frame. *)
Lemma load_csv_plain_ok w :
  name (dialect engine) <> "postgresql"%string ->
  if_exists = "replace"%string \/
  (if_exists = "append"%string /\
   forall t, youtube_videos (database w) = Some t -> schema t = Inferred) ->
  let result := load_csv env path engine if_exists w in
  fst result = inr tt /\
  forall r, In r csv ->
    In (insert_plain (coerce_published_at env (map published_at csv) r))
       (destination (snd result)).
Proof.
  intros Hd Hmode result. unfold result.
  rewrite (@load_csv_eq env path engine if_exists csv Hread w).
  unfold load_csv_body.
  destruct (String.eqb_spec (name (dialect engine)) "postgresql");
    [contradiction|].
  unfold to_sql_table.
  destruct Hmode as [->|[-> Hinferred]]; cbn [String.eqb Ascii.eqb Bool.eqb].
  - cbn [fst snd]. split; [reflexivity|]. intros r Hin.
    unfold destination, table_rows. cbn [database youtube_videos rows].
    apply in_map, in_map. exact Hin.
  - destruct (youtube_videos (database w)) as [t|] eqn:Ht.
    + rewrite (Hinferred t eq_refl), insert_rows_inferred. cbn [fst snd].
      split; [reflexivity|]. intros r Hin.
      unfold destination, table_rows. cbn [database youtube_videos rows].
      apply in_or_app. right. apply in_map, in_map. exact Hin.
    + cbn [fst snd]. split; [reflexivity|]. intros r Hin.
      unfold destination, table_rows. cbn [database youtube_videos rows].
      apply in_map, in_map. exact Hin.
Qed.

(** C7.  A record whose [published_at] is malformed: the value is there
    and the parser cannot read it.
    - With the default [errors="raise"] the conversion of the column would
      raise.  With [errors="coerce"], as [load_csv] calls it, it does not:
      it returns a column as long as the file, and the frame that
      [load_csv] goes on with has the record with NaT for its cell.
    - Whether the load goes through, and with which exception it fails if
      it does not, is the same with any other parser, one that reads every
      cell included: a malformed timestamp never fails the batch.
    - A load that goes through leaves a row with the columns of the record
      and a NULL [published_at]: the record is not dropped.
    - On PostgreSQL, with the table of [ensure_table] and pairwise distinct
      [video_id]s in the file, the load goes through, and the one row of
      the record's [video_id] has a NULL [published_at].
    - On another dialect, a load that replaces the table, or that appends
      to a table without primary key or to no table yet, goes through and
      adds the row of the record with a NULL [published_at]. *)
Theorem C7_malformed_published_at_becomes_null w r :
  In r csv ->
  malformed env (map published_at csv) (published_at r) = true ->
  let column := map published_at csv in
  let result := load_csv env path engine if_exists w in
  let incoming : DfRow := set_published_at r None in
  (exists e, to_datetime env column ErrorsRaise = inl e) /\
  (exists converted,
     to_datetime env column ErrorsCoerce = inr converted /\
     length converted = length csv /\
     length (assign_published_at csv converted) = length csv /\
     In incoming (assign_published_at csv converted)) /\
  (forall parse,
     fst (load_csv (with_parser env parse) path engine if_exists w)
     = fst result) /\
  (fst result = inr tt ->
   exists row,
     In row (destination (snd result)) /\ cols row = incoming /\
     published_at (cols row) = None) /\
  (name (dialect engine) = "postgresql"%string ->
   forall t,
     youtube_videos (database w) = Some t ->
     schema t = Ensured ->
     NoDup (map key (rows t)) ->
     NoDup (map video_id csv) ->
     fst result = inr tt /\
     exists row,
       rows_with_key (video_id r) (destination (snd result)) = [row] /\
       cols row = incoming /\ published_at (cols row) = None) /\
  (name (dialect engine) <> "postgresql"%string ->
   if_exists = "replace"%string \/
   (if_exists = "append"%string /\
    forall t, youtube_videos (database w) = Some t -> schema t = Inferred) ->
   fst result = inr tt /\
   In {| cols := incoming; loaded_at := None |} (destination (snd result))).
Proof.
  intros Hin Hbad column result incoming.
  pose proof (coerce_malformed r Hbad) as Hcoerce.
  fold column incoming in Hcoerce.
  split.
  { apply convert_cells_raise with (cell := published_at r);
      [apply in_map; exact Hin | exact Hbad]. }
  split.
  { exists (map (timestamp_of env column) column).
    split; [apply to_datetime_coerce|].
    unfold column at 2. rewrite !length_map. split; [reflexivity|].
    unfold column at 2 4. rewrite assign_coerced, length_map.
    split; [reflexivity|].
    rewrite <- Hcoerce. apply in_map. exact Hin. }
  split.
  { intro parse. unfold result. rewrite !load_csv_unfold.
    cbn [with_parser read_csv]. rewrite Hread. unfold begin.
    cbn [with_parser clock].
    pose proof (load_csv_body_keys engine if_exists
                  (map (coerce_published_at (with_parser env parse)
                          (map published_at csv)) csv)
                  (map (coerce_published_at env (map published_at csv)) csv)
                  (clock env (transactions w)) (clock env (transactions w))
                  (database w)) as H.
    destruct (load_csv_body engine if_exists
                (map (coerce_published_at (with_parser env parse) _) csv) _
                (database w)) as [e1|db1],
             (load_csv_body engine if_exists
                (map (coerce_published_at env _) csv) _ (database w))
               as [e2|db2];
      cbn [fst]; rewrite ?map_map in H; specialize (H eq_refl);
      try contradiction; congruence. }
  split.
  { intro Hok. destruct (load_csv_keeps_rows w r Hin Hok) as (row & Hrow & Hcols).
    exists row. fold result in Hrow. fold column in Hcols.
    rewrite Hcoerce in Hcols.
    split; [exact Hrow|]. split; [exact Hcols|]. rewrite Hcols. reflexivity. }
  split.
  { intros Hd t Ht Hs Hrows Hnd. unfold result.
    rewrite (@load_csv_postgresql_ok env path engine if_exists csv Hd Hread w t
             Ht Hs Hnd).
    cbn [fst snd]. split; [reflexivity|].
    unfold destination, table_rows, committed.
    cbn [database youtube_videos rows]. fold column.
    assert (Hin' : In incoming (map (coerce_published_at env column) csv))
      by (rewrite <- Hcoerce; apply in_map; exact Hin).
    assert (Hnd' : NoDup (map video_id
                            (map (coerce_published_at env column) csv)))
      by (rewrite map_map; exact Hnd).
    change (video_id r) with (video_id incoming).
    destruct (@upsert_all_row (clock env (transactions w)) _ (rows t) _
                Hrows Hnd' Hin') as [[_ Hnew]|(old & _ & Hnew)];
      rewrite Hnew; eexists; (split; [reflexivity|]);
      (split; reflexivity). }
  intros Hd Hmode.
  destruct (load_csv_plain_ok w Hd Hmode) as (Hok & Hrows).
  split; [exact Hok|].
  specialize (Hrows r Hin). fold column in Hrows. rewrite Hcoerce in Hrows.
  exact Hrows.
Qed.

End Coercion.

(** *** The hand-off from the transform stage *)

(** C9.  When the upstream task has pushed nothing under
    [processed_paths], or an empty list, [run_load] raises, and it does so
    before any database work: the world is exactly as it was (no connection
    attempt in the journal, no transaction begun, the database untouched).
    With a database URL at hand the exception is the [ValueError] of the
    missing hand-off. *)
Theorem C9_missing_handoff_is_an_error env env_DB_URL context w :
  let handoff :=
    ti_xcom_pull context "processed_paths" (params_upstream_task_id context) in
  handoff = None \/ handoff = Some [] ->
  (exists e, run_load env env_DB_URL context w = (inl e, w)) /\
  fst (run_load env env_DB_URL context w) <> inr tt /\
  (truthy (or_else (params_db_url context) env_DB_URL) = true ->
   run_load env env_DB_URL context w =
   (inl (ValueError "No processed CSV paths received from XCom."), w)).
Proof.
  intros handoff Hmissing. unfold run_load. fold handoff.
  destruct (or_else (params_db_url context) env_DB_URL) as [db_url|].
  2:{ split; [eexists; reflexivity|]. split; [discriminate|]. discriminate. }
  destruct (truthy (Some db_url)); cbn [negb].
  2:{ split; [eexists; reflexivity|]. split; [discriminate|]. discriminate. }
  destruct Hmissing as [H|H]; rewrite H; cbn [nonempty negb];
    (split; [eexists; reflexivity|]); (split; [discriminate|]); reflexivity.
Qed.

(** *** The properties on the sample files *)

Import Samples.

(** The sample worlds are what the code makes of the blank database. *)
Lemma ensured_by_ensure_table :
  ensure_table sample_env postgresql blank = (inr tt, ensured).
Proof. reflexivity. Qed.

Lemma loaded_a_by_load_csv :
  load_csv sample_env "a.csv" postgresql "append" ensured = (inr tt, loaded_a).
Proof. reflexivity. Qed.

Lemma NoDup_one {A} (a : A) : NoDup [a].
Proof. constructor; [intros [] | constructor]. Defined.

Lemma NoDup_two {A} (a b : A) : a <> b -> NoDup [a; b].
Proof.
  intro H. constructor; [intros [Heq|[]]; apply H; symmetry; exact Heq|].
  apply NoDup_one.
Defined.

(** C1 as stated fails on a dialect other than PostgreSQL: on SQLite,
    starting from a database without the table, two loads of the same
    one-record file both go through and leave two rows for its
    [video_id]. *)
Lemma C1_counterexample :
  let first := load_csv sample_env "a.csv" sqlite "append" blank in
  let second := load_csv sample_env "a.csv" sqlite "append" (snd first) in
  fst first = inr tt /\
  fst second = inr tt /\
  length (rows_with_key "V1" (destination (snd second))) = 2%nat /\
  length (rows_with_key "V1" (destination (snd second))) <> 1%nat.
Proof. cbv zeta. repeat split; try reflexivity. vm_compute. discriminate. Qed.

(** Under the primary key of [ensure_table], on a dialect other than
    PostgreSQL whose server runs the DDL, the second plain append does not
    go through at all. *)
Lemma append_twice_under_primary_key :
  let first := load_csv sample_env "a.csv" cockroachdb "append" ensured in
  let second := load_csv sample_env "a.csv" cockroachdb "append" (snd first) in
  ensure_table sample_env cockroachdb blank = (inr tt, ensured) /\
  fst first = inr tt /\
  fst second = inl (UniqueViolation "V1") /\
  database (snd second) = database (snd first).
Proof. cbv zeta. repeat split; reflexivity. Qed.

(** How a cell is read depends on the column it stands in: with a parser
    that takes the format from the first value of the column, the same date
    is read in one column and is malformed in another. *)
Lemma column_decides_the_cell :
  let env := with_parser sample_env strict_parse in
  timestamp_of env ["2024-01-01T00:00:00Z"; "2024-01-02T00:00:00Z"]%string
    "2024-01-02T00:00:00Z" = Some 1704153600%Z /\
  malformed env ["yesterday"; "2024-01-02T00:00:00Z"]%string
    "2024-01-02T00:00:00Z" = true /\
  to_datetime env ["yesterday"; "2024-01-02T00:00:00Z"]%string ErrorsCoerce
  = inr [None; None].
Proof. cbv zeta. repeat split; reflexivity. Qed.

(** C1 on [a.csv], loaded twice into the empty table of [ensure_table]. *)
Lemma C1_witness :
  let first := load_csv sample_env "a.csv" postgresql "append" ensured in
  let second := load_csv sample_env "a.csv" postgresql "append" (snd first) in
  fst first = inr tt /\
  fst second = inr tt /\
  database (snd second) = database (snd first) /\
  (forall k, In k (map video_id [record "V1" "A" "2024-01-01T00:00:00Z"]) ->
     length (rows_with_key k (destination (snd first))) = 1%nat /\
     length (rows_with_key k (destination (snd second))) = 1%nat).
Proof.
  apply (@C1_upsert_idempotent_on_postgresql sample_env "a.csv" postgresql
           "append" [record "V1" "A" "2024-01-01T00:00:00Z"]
           eq_refl eq_refl ensured {| schema := Ensured; rows := [] |}
           eq_refl eq_refl).
  - constructor.
  - apply NoDup_one.
Defined.

(** C2 as stated fails on [loaded_at]: the row of [V1] was loaded at 1001;
    the load of [b.csv], in a transaction whose [NOW()] is 1002, gives it
    the title ["B"] and leaves [loaded_at] at 1001. *)
Lemma C2_counterexample :
  let result := load_csv sample_env "b.csv" postgresql "append" loaded_a in
  let now := clock sample_env (transactions loaded_a) in
  fst result = inr tt /\
  now = 1002%Z /\
  map (fun row => (title (cols row), loaded_at row))
    (rows_with_key "V1" (destination (snd result)))
  = [("B"%string, Some 1001%Z)] /\
  map loaded_at (rows_with_key "V1" (destination (snd result)))
  <> [Some now].
Proof. cbv zeta. repeat split; try reflexivity. vm_compute. discriminate. Qed.

(** C2 on [b.csv], loaded over the row of [a.csv]. *)
Lemma C2_witness :
  let now := clock sample_env (transactions loaded_a) in
  let result := load_csv sample_env "b.csv" postgresql "append" loaded_a in
  fst result = inr tt /\
  (forall r, In r [record "V1" "B" "2024-01-01T00:00:00Z"] ->
     let incoming :=
       coerce_published_at sample_env ["2024-01-01T00:00:00Z"%string] r in
     (exists old,
        rows_with_key (video_id r) (rows table_a) = [old] /\
        rows_with_key (video_id r) (destination (snd result)) =
        [{| cols := incoming; loaded_at := loaded_at old |}])
     \/
     (rows_with_key (video_id r) (rows table_a) = [] /\
      rows_with_key (video_id r) (destination (snd result)) =
      [{| cols := incoming; loaded_at := Some now |}])) /\
  (forall k, ~ In k (map video_id [record "V1" "B" "2024-01-01T00:00:00Z"]) ->
     rows_with_key k (destination (snd result)) =
     rows_with_key k (rows table_a)).
Proof.
  apply (@C2_merge_overwrites_or_inserts sample_env "b.csv" postgresql
           "append" [record "V1" "B" "2024-01-01T00:00:00Z"]
           eq_refl eq_refl loaded_a table_a eq_refl eq_refl).
  - apply NoDup_one.
  - apply NoDup_one.
Defined.

(** The failing input of C4 on PostgreSQL: the two records of [twice.csv]
    have the same [video_id]; the merge raises and nothing is loaded. *)
Lemma twice_csv_raises :
  load_csv sample_env "twice.csv" postgresql "append" ensured
  = (inl CardinalityViolation, rolled_back ensured) /\
  destination (rolled_back ensured) = [].
Proof. split; reflexivity. Qed.

(** C4 on [twice.csv]. *)
Lemma C4_witness :
  (2 <= count_occ string_dec
          (map video_id [record "V1" "A" "2024-01-01T00:00:00Z";
                         record "V1" "B" "2024-01-02T00:00:00Z"])
          "V1"%string)%nat /\
  let result := load_csv sample_env "twice.csv" postgresql "append" ensured in
  ~ (fst result = inr tt /\
     length (rows_with_key "V1" (destination (snd result))) = 1%nat) /\
  (name (dialect postgresql) = "postgresql"%string ->
   (exists e, fst result = inl e) /\
   database (snd result) = database ensured /\
   (forall t, youtube_videos (database ensured) = Some t ->
              schema t = Ensured ->
              fst result = inl CardinalityViolation)).
Proof.
  split; [vm_compute; lia|].
  apply (@C4_duplicate_key_in_batch_is_not_merged sample_env "twice.csv"
           postgresql "append"
           [record "V1" "A" "2024-01-01T00:00:00Z";
            record "V1" "B" "2024-01-02T00:00:00Z"] eq_refl ensured "V1").
  vm_compute. lia.
Defined.

(** C7 on [malformed.csv], whose second record has the date [yesterday]. *)
Lemma C7_witness :
  let csv :=
    [record "V1" "A" "2024-01-01T00:00:00Z"; record "V2" "C" "yesterday"] in
  let result :=
    load_csv sample_env "malformed.csv" postgresql "append" ensured in
  In (record "V2" "C" "yesterday") csv /\
  malformed sample_env (map published_at csv) "yesterday" = true /\
  (exists e, to_datetime sample_env (map published_at csv) ErrorsRaise = inl e)
  /\
  fst result = inr tt /\
  exists row,
    rows_with_key "V2" (destination (snd result)) = [row] /\
    cols row = set_published_at (record "V2" "C" "yesterday") None /\
    published_at (cols row) = None.
Proof.
  cbv zeta.
  split; [right; left; reflexivity|]. split; [reflexivity|].
  destruct (@C7_malformed_published_at_becomes_null sample_env "malformed.csv"
              postgresql "append"
              [record "V1" "A" "2024-01-01T00:00:00Z";
               record "V2" "C" "yesterday"]
              eq_refl ensured (record "V2" "C" "yesterday")
              (or_intror (or_introl eq_refl)) eq_refl)
    as (Hraise & _ & _ & _ & Hpostgresql & _).
  split; [exact Hraise|].
  apply (Hpostgresql eq_refl {| schema := Ensured; rows := [] |}
           eq_refl eq_refl).
  - constructor.
  - apply NoDup_two. discriminate.
Defined.

(** C9 with nothing pushed by the upstream task. *)
Lemma C9_witness :
  (ti_xcom_pull (context_with None) "processed_paths"
     (params_upstream_task_id (context_with None)) = None \/
   ti_xcom_pull (context_with None) "processed_paths"
     (params_upstream_task_id (context_with None)) = Some []) /\
  run_load sample_env None (context_with None) blank =
  (inl (ValueError "No processed CSV paths received from XCom."), blank).
Proof.
  split; [left; reflexivity|].
  destruct (@C9_missing_handoff_is_an_error sample_env None
              (context_with None) blank (or_introl eq_refl))
    as (_ & _ & Hvalue).
  apply Hvalue. reflexivity.
Defined.

(** With the hand-off in place the same call connects, ensures the table
    and loads the file. *)
Lemma run_load_sample :
  run_load sample_env None (context_with (Some ["a.csv"%string])) blank
  = (inr tt,
     {| database := database loaded_a;
        transactions := 2;
        journal := [EvConnect "postgresql://user:pw@db/yt";
                    EvBegin; EvCommit; EvBegin; EvCommit] |}).
Proof. reflexivity. Qed.

End LoadSpec.

(** ** The query list *)

Module PyStrFacts.

Import PyStr.

Lemma split_no_sep sep s piece :
  In piece (split sep s) -> occurs sep piece = false.
Proof.
  revert piece. induction s as [|c s IH]; intros piece Hin; simpl in Hin.
  - destruct Hin as [<-|[]]. reflexivity.
  - destruct (Ascii.eqb c sep) eqn:Hc.
    + destruct Hin as [<-|Hin]; [reflexivity | apply IH; exact Hin].
    + destruct (split sep s) as [|h t].
      * destruct Hin as [<-|[]]. simpl. rewrite Hc. reflexivity.
      * destruct Hin as [<-|Hin].
        -- simpl. rewrite Hc. apply IH. left. reflexivity.
        -- apply IH. right. exact Hin.
Qed.

Lemma occurs_lstrip c s : occurs c s = false -> occurs c (lstrip s) = false.
Proof.
  induction s as [|c' s IH]; simpl; intro H; [reflexivity|].
  apply orb_false_iff in H. destruct H as [Hc Hs].
  destruct (isspace c'); [apply IH; exact Hs|].
  simpl. rewrite Hc, Hs. reflexivity.
Qed.

Lemma occurs_rstrip c s : occurs c s = false -> occurs c (rstrip s) = false.
Proof.
  induction s as [|c' s IH]; simpl; intro H; [reflexivity|].
  apply orb_false_iff in H. destruct H as [Hc Hs]. specialize (IH Hs).
  destruct (rstrip s) as [|c'' r].
  - destruct (isspace c'); simpl; [reflexivity|]. rewrite Hc. reflexivity.
  - cbn [occurs]. rewrite Hc. exact IH.
Qed.

Lemma lstrip_first s c :
  first_char (lstrip s) = Some c -> isspace c = false.
Proof.
  induction s as [|c' s IH]; simpl; [discriminate|].
  destruct (isspace c') eqn:Hc'; [exact IH|].
  simpl. intro H. injection H as <-. exact Hc'.
Qed.

Lemma rstrip_first s c :
  first_char (rstrip s) = Some c -> first_char s = Some c.
Proof.
  destruct s as [|c' s]; simpl; [discriminate|].
  destruct (rstrip s); [destruct (isspace c')|]; simpl; congruence.
Qed.

Lemma rstrip_last s c :
  last_char (rstrip s) = Some c -> isspace c = false.
Proof.
  induction s as [|c' s IH]; simpl; [discriminate|].
  destruct (rstrip s) as [|c'' r].
  - destruct (isspace c') eqn:Hc'; simpl; [discriminate|].
    intro H. injection H as <-. exact Hc'.
  - exact IH.
Qed.

Lemma lstrip_fixed s :
  (forall c, first_char s = Some c -> isspace c = false) -> lstrip s = s.
Proof.
  destruct s as [|c s]; simpl; intro H; [reflexivity|].
  rewrite (H c eq_refl). reflexivity.
Qed.

Lemma rstrip_fixed s :
  (forall c, last_char s = Some c -> isspace c = false) -> rstrip s = s.
Proof.
  induction s as [|c s IH]; simpl; intro H; [reflexivity|].
  destruct s as [|c' s'].
  - simpl. rewrite (H c eq_refl). reflexivity.
  - rewrite IH by exact H. reflexivity.
Qed.

Lemma strip_strip s : strip (strip s) = strip s.
Proof.
  unfold strip at 1.
  rewrite (lstrip_fixed (strip s)).
  - apply rstrip_fixed. intros c. apply rstrip_last.
  - intros c H. apply rstrip_first in H. apply (lstrip_first s). exact H.
Qed.

(** Every query of the list is a piece between two commas, stripped of the
    whitespace around it, and is not empty: it has no comma, does not start
    or end with whitespace, and stripping it again changes nothing. *)
Theorem query_list_of_clean raw_queries q :
  In q (query_list_of raw_queries) ->
  q <> EmptyString /\
  occurs ","%char q = false /\
  (forall c, first_char q = Some c -> isspace c = false) /\
  (forall c, last_char q = Some c -> isspace c = false) /\
  strip q = q /\
  exists piece, In piece (split ","%char raw_queries) /\ q = strip piece.
Proof.
  unfold query_list_of. rewrite in_map_iff.
  intros (piece & <- & Hin). apply filter_In in Hin.
  destruct Hin as [Hin Hne]. split; [|split; [|split; [|split; [|split]]]].
  - unfold nonblank in Hne. apply negb_true_iff, String.eqb_neq in Hne.
    exact Hne.
  - apply occurs_rstrip, occurs_lstrip, (split_no_sep _ _ _ Hin).
  - intros c H. apply rstrip_first in H. apply (lstrip_first piece). exact H.
  - intros c. apply rstrip_last.
  - apply strip_strip.
  - exists piece. split; [exact Hin | reflexivity].
Qed.

(** The query list of the DAG's parameter and of a list with blanks and
    empty pieces. *)
Lemma query_list_of_samples :
  query_list_of "kpop,music,hiphop" = ["kpop"; "music"; "hiphop"]%string /\
  query_list_of " kpop , lo fi ,, " = ["kpop"; "lo fi"]%string /\
  query_list_of " , ," = [].
Proof. repeat split; reflexivity. Qed.

Lemma query_list_of_clean_witness :
  In "lo fi"%string (query_list_of " kpop , lo fi ,, ") /\
  strip "lo fi" = "lo fi"%string.
Proof.
  split; [right; left; reflexivity|].
  apply (@query_list_of_clean " kpop , lo fi ,, " "lo fi").
  right; left; reflexivity.
Defined.

End PyStrFacts.

(** ** More on the Fetcher *)

Module ExtractMore.

Import Py PyStr PyFacts Extract ExtractRun ExtractSpec.

Section FetcherMore.

Context {Item : Type}.

Implicit Types (script : list (ApiResult Item)) (collected : list Item).
Implicit Types (response : Response Item) (token : option string).

Lemma slice_to_app_full collected (more : list Item) max_total :
  (0 <= max_total)%Z ->
  (max_total <= len collected)%Z ->
  slice_to (collected ++ more) max_total = slice_to collected max_total.
Proof.
  intros H0 Hfull. unfold slice_to, len in *.
  destruct (Z.leb_spec 0 max_total); [|lia].
  rewrite firstn_app.
  replace (Z.to_nat max_total - length collected)%nat with 0%nat by lia.
  simpl. apply app_nil_r.
Qed.

(** What the loop has collected when it ends agrees, up to the budget,
    with what the API has for the query. *)
Lemma paginate_prefix query max_total sleep script :
  forall collected token,
  (0 <= max_total)%Z ->
  ends_result_set script = true ->
  exists final,
    outcome (paginate query max_total sleep script collected token)
      = Returned final /\
    slice_to final max_total =
    slice_to (collected ++ available_items script) max_total.
Proof.
  induction script as [|[response|e|e] script IH];
    intros collected token H0 Hend; [| | |discriminate].
  - discriminate.
  - rewrite paginate_eq.
    destruct (Z.ltb_spec (len collected) max_total) as [Hlt|Hge].
    2:{ eexists; split; [reflexivity|].
        symmetry. apply slice_to_app_full; assumption. }
    simpl in Hend |- *. unfold last_page in *.
    destruct (nonempty (get_items response)) eqn:Hne; simpl in *.
    + destruct (truthy (nextPageToken response)) eqn:Htok; simpl in *.
      * destruct (IH (collected ++ get_items response)
                     (nextPageToken response) H0 Hend) as (final & Hout & Hs).
        exists final. split; [exact Hout|].
        rewrite Hs, <- app_assoc. reflexivity.
      * eexists; split; reflexivity.
    + eexists; split; [reflexivity|].
      destruct (get_items response); [|discriminate].
      rewrite app_nil_r. reflexivity.
  - rewrite paginate_eq.
    destruct (Z.ltb_spec (len collected) max_total) as [Hlt|Hge].
    2:{ eexists; split; [reflexivity|].
        symmetry. apply slice_to_app_full; assumption. }
    simpl in Hend |- *. apply IH; assumption.
Qed.

Lemma slice_to_slice_to (l : list Item) (m m' : Z) :
  (0 <= m <= m')%Z -> slice_to (slice_to l m') m = slice_to l m.
Proof.
  intro H. unfold slice_to.
  destruct (Z.leb_spec 0 m); [|lia]. destruct (Z.leb_spec 0 m'); [|lia].
  rewrite firstn_firstn. f_equal. lia.
Qed.

Lemma extract_outcome env_api_key script query max_total api_key sleep :
  truthy (or_else api_key env_api_key) = true ->
  (0 <= max_total)%Z ->
  ends_result_set script = true ->
  outcome (extract_videos_for_query env_api_key script query max_total
             api_key sleep)
  = Returned (slice_to (available_items script) max_total).
Proof.
  intros Hkey H0 Hend. unfold extract_videos_for_query.
  rewrite Hkey. cbn [negb].
  destruct (@paginate_prefix query max_total sleep script [] None H0 Hend)
    as (final & Hout & Hs).
  unfold map_outcome. cbn [outcome]. rewrite Hout, Hs. reflexivity.
Qed.

(** The Fetcher returns the first [max_total] items that the API has for
    the query, in the order of the API and with nothing removed: items that
    the API serves twice are returned twice. *)
Theorem fetch_returns_first_items
    env_api_key script query max_total api_key sleep :
  truthy (or_else api_key env_api_key) = true ->
  (0 <= max_total)%Z ->
  ends_result_set script = true ->
  outcome (extract_videos_for_query env_api_key script query max_total
             api_key sleep)
  = Returned (slice_to (available_items script) max_total).
Proof.
  intros Hkey H0 Hend. unfold extract_videos_for_query.
  rewrite Hkey. cbn [negb]. unfold map_outcome. cbn [outcome].
  destruct (@paginate_prefix query max_total sleep script [] None H0 Hend)
    as (final & Hout & Hfirst).
  rewrite Hout. f_equal. exact Hfirst.
Qed.

(** A larger budget only extends the result: what the Fetcher returns for
    [max_total] is the beginning of what it returns for any larger
    budget, the answers of the API being the same. *)
Theorem fetch_budget_extends
    env_api_key script query (max_total larger : Z) api_key sleep :
  truthy (or_else api_key env_api_key) = true ->
  (0 <= max_total <= larger)%Z ->
  ends_result_set script = true ->
  exists result result',
    outcome (extract_videos_for_query env_api_key script query max_total
               api_key sleep) = Returned result /\
    outcome (extract_videos_for_query env_api_key script query larger
               api_key sleep) = Returned result' /\
    result = slice_to result' max_total.
Proof.
  intros Hkey Hm Hend.
  exists (slice_to (available_items script) max_total),
         (slice_to (available_items script) larger).
  split; [apply extract_outcome; [assumption | lia | assumption]|].
  split; [apply extract_outcome; [assumption | lia | assumption]|].
  symmetry. apply slice_to_slice_to. exact Hm.
Qed.

(** *** The requests *)

(** Every request of the loop asks for videos matching the query, newest
    first, between 1 and 50 of them and never more than the budget; its
    page token is the one the loop started with or a non-empty token that
    an earlier answer of the API carried. *)
Lemma paginate_requests query max_total sleep script :
  forall collected token r,
  In r (requests (trace (paginate query max_total sleep script collected
                           token))) ->
  r = search_list query (maxResults r) (pageToken r) /\
  (1 <= maxResults r <= DEFAULT_MAX_RESULTS_PER_QUERY)%Z /\
  (maxResults r <= max_total)%Z /\
  (pageToken r = token \/
   exists response,
     In (ApiResponse response) script /\
     pageToken r = nextPageToken response /\
     truthy (nextPageToken response) = true).
Proof.
  assert (Hhere : forall collected token,
            (len collected < max_total)%Z ->
            let r := request_at query max_total collected token in
            r = search_list query (maxResults r) (pageToken r) /\
            (1 <= maxResults r <= DEFAULT_MAX_RESULTS_PER_QUERY)%Z /\
            (maxResults r <= max_total)%Z /\
            pageToken r = token).
  { intros collected token Hlt. unfold request_at, search_list.
    cbn [maxResults pageToken]. pose proof (len_nonneg collected).
    unfold DEFAULT_MAX_RESULTS_PER_QUERY. repeat split; lia. }
  induction script as [|[response|e|e] script IH]; intros collected token r;
    rewrite paginate_eq;
    destruct (Z.ltb_spec (len collected) max_total) as [Hlt|Hge];
    try (simpl; contradiction);
    destruct (Hhere collected token Hlt) as (H1 & H2 & H3 & H4);
    try (simpl; intros [<-|[]]; solve [auto]).
  - destruct (nonempty (get_items response)) eqn:Hne; cbn [negb].
    2:{ simpl. intros [<-|[]]. auto. }
    destruct (truthy (nextPageToken response)) eqn:Htok; cbn [negb].
    2:{ simpl. intros [<-|[]]. auto. }
    unfold after. cbn [trace app requests]. intros [<-|Hin]; [auto|].
    destruct (IH _ _ _ Hin) as (G1 & G2 & G3 & [G4|(response' & Gin & G5 & G6)]).
    + split; [exact G1|]. split; [exact G2|]. split; [exact G3|].
      right. exists response. split; [left; reflexivity|]. auto.
    + split; [exact G1|]. split; [exact G2|]. split; [exact G3|].
      right. exists response'. split; [right; exact Gin|]. auto.
  - unfold after. cbn [trace app requests]. intros [<-|Hin]; [auto|].
    destruct (IH _ _ _ Hin) as (G1 & G2 & G3 & [G4|(response' & Gin & G5 & G6)]).
    + auto.
    + split; [exact G1|]. split; [exact G2|]. split; [exact G3|].
      right. exists response'. split; [right; exact Gin|]. auto.
Qed.

(** Every request of a run of [extract_videos_for_query] is a search for
    videos matching the query ([part="snippet"], [type="video"],
    [order="date"]) with [1 <= maxResults <= 50] and [maxResults <=
    max_total]; its page token is absent or is a non-empty token that an
    earlier answer of the API carried.  This holds for every script, also
    one with errors, and whether or not the run ends. *)
Theorem requests_are_well_formed
    env_api_key script query max_total api_key sleep r :
  In r (requests (trace (extract_videos_for_query env_api_key script query
                           max_total api_key sleep))) ->
  r = search_list query (maxResults r) (pageToken r) /\
  (1 <= maxResults r <= 50)%Z /\
  (maxResults r <= max_total)%Z /\
  (pageToken r = None \/
   exists response,
     In (ApiResponse response) script /\
     pageToken r = nextPageToken response /\
     truthy (nextPageToken response) = true).
Proof.
  unfold extract_videos_for_query.
  destruct (negb (truthy (or_else api_key env_api_key))); [intros []|].
  unfold map_outcome. cbn [trace]. apply paginate_requests.
Qed.

(** *** The pace *)

Lemma paginate_paced query max_total sleep script :
  forall collected token,
  let t := trace (paginate query max_total sleep script collected token) in
  paced t = true /\
  Forall (fun s => s = retry_cooldown \/ s = sleep) (sleeps t) /\
  sleeps t = firstn (length (sleeps t)) (pauses sleep script).
Proof.
  induction script as [|[response|e|e] script IH]; intros collected token;
    cbv zeta; rewrite paginate_eq;
    destruct (Z.ltb_spec (len collected) max_total) as [Hlt|Hge];
    try (split; [reflexivity | split; [constructor | reflexivity]]).
  - destruct (nonempty (get_items response)); cbn [negb];
      [|split; [reflexivity | split; [constructor | reflexivity]]].
    destruct (truthy (nextPageToken response)); cbn [negb];
      [|split; [reflexivity | split; [constructor | reflexivity]]].
    unfold after. cbn [trace app paced sleeps pauses length firstn].
    destruct (IH (collected ++ get_items response) (nextPageToken response))
      as (Hp & Hs & Hk).
    split; [exact Hp|]. split; [constructor; [right; reflexivity | exact Hs]|].
    f_equal. exact Hk.
  - unfold after. cbn [trace app paced sleeps pauses length firstn].
    destruct (IH collected token) as (Hp & Hs & Hk).
    split; [exact Hp|]. split; [constructor; [left; reflexivity | exact Hs]|].
    f_equal. exact Hk.
Qed.

(** A run never issues two requests without a sleep in between, and never
    sleeps before its first request or twice in a row: its trace alternates
    requests and sleeps, the k-th sleep following the k-th request, which
    received the k-th answer of the script.  The k-th sleep lasts the
    cooldown of 60 s when the k-th answer is an [HttpError] and the
    inter-page delay when it is a page: the sleeps of the run are the
    first ones of [pauses sleep script].  No sleep has another duration. *)
Theorem requests_are_paced env_api_key script query max_total api_key sleep :
  let t :=
    trace (extract_videos_for_query env_api_key script query max_total
             api_key sleep) in
  paced t = true /\
  Forall (fun s => s = retry_cooldown \/ s = sleep) (sleeps t) /\
  sleeps t = firstn (length (sleeps t)) (pauses sleep script).
Proof.
  cbv zeta. unfold extract_videos_for_query.
  destruct (negb (truthy (or_else api_key env_api_key)));
    [split; [reflexivity | split; [constructor | reflexivity]]|].
  unfold map_outcome. cbn [trace]. apply paginate_paced.
Qed.

End FetcherMore.

(** ** The entry points of the extract stage *)

Section RunnerFacts.

Context {Item : Type}.
Variable env : ExtractRun.Env Item.

Implicit Types (w : ExtractRun.World Item) (query : string).

Lemma written_cons w path path' (data : list Item) files' :
  files w = (path', data) :: files' ->
  (path' = path \/ read_file path files' <> None) ->
  written w path.
Proof.
  unfold written. intros -> H. simpl.
  destruct (String.eqb_spec path' path); [discriminate|].
  destruct H; [contradiction | assumption].
Qed.

(** What one [save_response] does. *)
Lemma save_response_effect data query w :
  let r := save_response env data query w in
  let path := raw_path env (file_name (utcnow env (saves w)) query) in
  xcom (snd r) = xcom w /\
  events (snd r) = events w /\
  fetches (snd r) = fetches w /\
  saves (snd r) = S (saves w) /\
  (forall p, written w p -> written (snd r) p) /\
  (fst r = Returned path /\ read_file path (files (snd r)) = Some data \/
   fst r = Raised (FileNotFoundError path) /\ files (snd r) = files w).
Proof.
  cbv zeta. unfold save_response.
  destruct (can_open env _); cbn [fst snd xcom events fetches saves files].
  - repeat split; try reflexivity.
    + intros p Hp. eapply written_cons; [reflexivity|].
      right. exact Hp.
    + left. split; [reflexivity|]. simpl. rewrite String.eqb_refl.
      reflexivity.
  - repeat split; try reflexivity.
    + intros p Hp. exact Hp.
    + right. split; reflexivity.
Qed.

(** What the loop of [run_extract] does: it pushes nothing; it keeps what
    was written; when it returns, it has added one path per query, each of
    a file that exists. *)
Lemma extract_and_save_effect max_total api_key query_list :
  forall paths w out w',
  extract_and_save env max_total api_key query_list paths w = (out, w') ->
  xcom w' = xcom w /\
  (forall p, written w p -> written w' p) /\
  (forall paths', out = Returned paths' ->
     exists new,
       paths' = paths ++ new /\
       length new = length query_list /\
       Forall (written w') new /\
       fetches w' = (fetches w + length query_list)%nat /\
       saves w' = (saves w + length query_list)%nat).
Proof.
  induction query_list as [|query query_list IH]; intros paths w out w'.
  - cbn [extract_and_save]. intro H. injection H as <- <-.
    split; [reflexivity|]. split; [auto|]. intros paths' H. injection H as <-.
    exists []. rewrite app_nil_r, !Nat.add_0_r. repeat split. constructor.
  - cbn [extract_and_save]. unfold bindx, fetch.
    destruct (outcome (extract_videos_for_query _ _ query max_total api_key _))
      as [items|e|];
      try (intro H; injection H as <- <-; cbn [xcom];
           split; [reflexivity|]; split; [auto|]; discriminate).
    set (w1 := {| files := files w; xcom := xcom w;
                  events := events w ++ _;
                  fetches := S (fetches w); saves := saves w |}).
    pose proof (save_response_effect items query w1) as Hsave.
    cbv zeta in Hsave.
    destruct (save_response env items query w1) as [[path|e|] w2];
      cbn [fst snd] in Hsave;
      destruct Hsave as (Hx & _ & Hf & Hs & Hkeep & Hres);
      try (intro H; injection H as <- <-;
           split; [exact Hx|]; split; [exact Hkeep|]; discriminate).
    intro H. destruct (IH _ _ _ _ H) as (IHx & IHkeep & IHres).
    split; [rewrite IHx; exact Hx|].
    split; [intros p Hp; apply IHkeep, Hkeep; exact Hp|].
    intros paths' Hret. destruct (IHres paths' Hret)
      as (new & -> & Hlen & Hall & Hfetch & Hsaves).
    exists (path :: new). rewrite <- app_assoc. split; [reflexivity|].
    split; [simpl; rewrite Hlen; reflexivity|].
    split.
    + constructor; [|exact Hall]. apply IHkeep.
      destruct Hres as [[Hp Hread]|[Habs _]]; [|discriminate].
      injection Hp as ->. unfold written.
      change (saves w) with (saves w1). rewrite Hread. discriminate.
    + rewrite Hfetch, Hsaves, Hf, Hs. subst w1. cbn [fetches saves]. simpl.
      split; lia.
Qed.

Lemma or_else_twice (a e : option string) :
  or_else (or_else a e) e = or_else a e.
Proof.
  unfold or_else. destruct (truthy a) eqn:Ha; [rewrite Ha; reflexivity|].
  destruct (truthy e); reflexivity.
Qed.

Lemma fetch_resolved_key query max_total api_key :
  fetch env query max_total (or_else api_key (YT_API_KEY env)) =
  fetch env query max_total api_key.
Proof.
  unfold fetch, extract_videos_for_query. rewrite or_else_twice. reflexivity.
Qed.

(** The hand-off of [run_extract].  When the task returns, it has pushed
    exactly one XCom value, under [raw_paths]: one path per query of the
    list, in order, each naming a file that has been written.  When it
    raises, or never returns, it has pushed nothing. *)
Theorem run_extract_pushes_written_paths context w :
  let query_list :=
    query_list_of (match params_query context with
                   | Some raw => raw
                   | None => "music"%string
                   end) in
  let r := run_extract env context w in
  match fst r with
  | Returned _ =>
      exists paths,
        xcom (snd r) = ("raw_paths"%string, paths) :: xcom w /\
        length paths = length query_list /\
        Forall (written (snd r)) paths
  | _ => xcom (snd r) = xcom w
  end.
Proof.
  cbv zeta. unfold run_extract, bindx.
  destruct (extract_and_save env _ _ _ [] w) as [[paths|e|] w1] eqn:Hloop;
    destruct (extract_and_save_effect _ _ _ _ _ Hloop) as (Hx & _ & Hres);
    cbn [fst snd xcom_push xcom]; try exact Hx.
  destruct (Hres paths eq_refl) as (new & -> & Hlen & Hall & _).
  exists new. rewrite Hx. split; [reflexivity|]. split; [exact Hlen|].
  exact Hall.
Qed.

(** The API key is checked by the Fetcher, not by the task: without any
    key, [run_extract] on an empty query list still returns, having pushed
    the empty list of paths; on a query list that is not empty it raises
    the [RuntimeError] of the missing key at the first query, before any
    request, and writes and pushes nothing. *)
Theorem run_extract_without_api_key context w :
  truthy (or_else (params_api_key context) (YT_API_KEY env)) = false ->
  let query_list :=
    query_list_of (match params_query context with
                   | Some raw => raw
                   | None => "music"%string
                   end) in
  let r := run_extract env context w in
  (query_list = [] ->
   fst r = Returned tt /\
   xcom (snd r) = ("raw_paths"%string, []) :: xcom w /\
   files (snd r) = files w /\ events (snd r) = events w) /\
  (query_list <> [] ->
   fst r =
   Raised (RuntimeError
     "YouTube API key not set. Provide --api_key or set YT_API_KEY env var.") /\
   xcom (snd r) = xcom w /\
   files (snd r) = files w /\ events (snd r) = events w).
Proof.
  intros Hkey. cbv zeta. unfold run_extract. split.
  - intros ->. cbn. repeat split.
  - destruct (query_list_of _) as [|query query_list]; [congruence|].
    intros _. cbn [extract_and_save]. unfold bindx at 1. unfold bindx at 1.
    unfold fetch, extract_videos_for_query.
    rewrite or_else_twice, Hkey. cbn. rewrite app_nil_r. repeat split.
Qed.

(** Two saves whose file names coincide land in one file.  The name of a
    file is made of the time, to the second, and the query with its spaces
    turned into underscores; when two queries agree after that change and
    the clock has not moved, [save_response] returns the same path for
    both and the file holds the data of the second save only. *)
Theorem save_response_same_name_overwrites
    (data1 data2 : list Item) query1 query2 w :
  replace " " "_" query1 = replace " " "_" query2 ->
  utcnow env (saves w) = utcnow env (S (saves w)) ->
  can_open env (raw_path env (file_name (utcnow env (saves w)) query1))
    = true ->
  let r1 := save_response env data1 query1 w in
  let r2 := save_response env data2 query2 (snd r1) in
  exists path,
    fst r1 = Returned path /\
    fst r2 = Returned path /\
    read_file path (files (snd r2)) = Some data2 /\
    length (files (snd r2)) = S (S (length (files w))).
Proof.
  intros Hname Hclock Hopen. cbv zeta. unfold save_response.
  rewrite Hopen. cbn [fst snd saves files].
  rewrite <- Hclock. unfold file_name in *. rewrite <- Hname, Hopen.
  cbn [fst snd files].
  eexists. split; [reflexivity|]. split; [reflexivity|].
  split; [|reflexivity]. simpl. rewrite String.eqb_refl. reflexivity.
Qed.

(** The loop of the command line and the loop of the task do the same
    fetches and the same saves. *)
Lemma loops_agree args query_list : forall paths w,
  match extract_and_save env (args_max_results args)
          (or_else (args_api_key args) (YT_API_KEY env)) query_list paths w,
        main_loop env args query_list w with
  | (Returned _, wa), (Returned _, wm) => wm = wa
  | (Raised e, wa), (Raised e', wm) => e = e' /\ wm = wa
  | (Pending, wa), (Pending, wm) => wm = wa
  | _, _ => False
  end.
Proof.
  induction query_list as [|query query_list IH]; intros paths w.
  - reflexivity.
  - cbn [extract_and_save main_loop]. unfold bindx.
    rewrite fetch_resolved_key.
    destruct (fetch env query _ _ w) as [[items|e|] w1];
      [|split; reflexivity | reflexivity].
    destruct (save_response env items query w1) as [[path|e|] w2];
      [|split; reflexivity | reflexivity].
    apply IH.
Qed.

(** The command line and the Airflow task are the same extraction: with
    the same queries, budget and key, [main] performs the same requests
    and writes the same files as [run_extract]; it pushes nothing, and its
    exit status is 0 when the task returns and 1 when the task raises:
    no exception escapes the command line. *)
Theorem main_agrees_with_run_extract args context w :
  params_query context = Some (args_query args) ->
  params_max_total context = Some (args_max_results args) ->
  params_api_key context = args_api_key args ->
  let m := main env args w in
  let r := run_extract env context w in
  files (snd m) = files (snd r) /\
  events (snd m) = events (snd r) /\
  xcom (snd m) = xcom w /\
  fst m = match fst r with
          | Returned _ => Returned 0%Z
          | Raised _ => Returned 1%Z
          | Pending => Pending
          end.
Proof.
  intros Hq Hm Hk. cbv zeta. unfold main, run_extract, bindx.
  rewrite Hq, Hm, Hk.
  pose proof (loops_agree args (query_list_of (args_query args)) [] w)
    as Hagree.
  destruct (extract_and_save env _ _ _ [] w) as [[paths|e|] w1] eqn:Hloop;
    destruct (extract_and_save_effect _ _ _ _ _ Hloop) as (Hx & _ & _);
    destruct (main_loop env args _ w) as [[u|e'|] w2];
    simpl in Hagree; try contradiction.
  - subst w2. cbn [xcom_push fst snd files events xcom].
    repeat split. exact Hx.
  - destruct Hagree as [_ ->]. cbn [fst snd]. repeat split. exact Hx.
  - subst w2. cbn [fst snd]. repeat split. exact Hx.
Qed.

End RunnerFacts.

(** *** The properties on the sample runs *)

Import Samples.

(** The first 70 of the 120 items. *)
Lemma fetch_returns_first_items_witness :
  outcome (extract_videos_for_query None kpop_script "kpop" 70
             (Some "key"%string) default_sleep_between_pages)
  = Returned (slice_to (available_items kpop_script) 70) /\
  slice_to (available_items kpop_script) 70 = seq 0 70.
Proof.
  split; [|reflexivity].
  apply fetch_returns_first_items; [reflexivity | lia | reflexivity].
Defined.

(** The budgets 70 and 120. *)
Lemma fetch_budget_extends_witness :
  exists result result',
    outcome (extract_videos_for_query None kpop_script "kpop" 70
               (Some "key"%string) default_sleep_between_pages)
      = Returned result /\
    outcome (extract_videos_for_query None kpop_script "kpop" 120
               (Some "key"%string) default_sleep_between_pages)
      = Returned result' /\
    result = slice_to result' 70.
Proof.
  apply fetch_budget_extends; [reflexivity | lia | reflexivity].
Defined.

(** The second request of the 50/50/20 run. *)
Lemma requests_are_well_formed_witness :
  let r := search_list "kpop" 50 (Some "CDIQAA"%string) in
  In r (requests (trace (extract_videos_for_query None kpop_script "kpop" 120
                           (Some "key"%string) default_sleep_between_pages)))
  /\ (1 <= maxResults r <= 50)%Z.
Proof.
  cbv zeta. split; [right; left; reflexivity|].
  apply (@requests_are_well_formed nat None kpop_script "kpop" 120
           (Some "key"%string) default_sleep_between_pages
           (search_list "kpop" 50 (Some "CDIQAA"%string))).
  right; left; reflexivity.
Defined.

(** A task for two queries returns with two paths and two files. *)
Lemma run_extract_sample :
  let r := run_extract extract_env (asking "kpop, music") fresh in
  fst r = Returned tt /\
  xcom (snd r) =
    [("raw_paths",
      ["/data/raw/2024-01-01T00-00-00Z_kpop.json";
       "/data/raw/2024-01-01T00-00-00Z_music.json"])]%string /\
  map fst (ExtractRun.files (snd r)) =
    ["/data/raw/2024-01-01T00-00-00Z_music.json";
     "/data/raw/2024-01-01T00-00-00Z_kpop.json"]%string /\
  fetches (snd r) = 2%nat.
Proof. cbv zeta. repeat split; reflexivity. Qed.

(** No key: the blank query list and the query [kpop]. *)
Lemma run_extract_without_api_key_witness :
  truthy (or_else (params_api_key (asking " , ,")) (YT_API_KEY keyless_env))
    = false /\
  fst (run_extract keyless_env (asking " , ,") fresh) = Returned tt /\
  fst (run_extract keyless_env (asking "kpop") fresh) =
  Raised (RuntimeError
    "YouTube API key not set. Provide --api_key or set YT_API_KEY env var.").
Proof.
  split; [reflexivity|]. split.
  - apply (@run_extract_without_api_key nat keyless_env (asking " , ,") fresh
             eq_refl).
    reflexivity.
  - apply (@run_extract_without_api_key nat keyless_env (asking "kpop") fresh
             eq_refl).
    discriminate.
Defined.

(** The queries [lo fi] and [lo_fi], saved within the same second. *)
Lemma save_response_same_name_overwrites_witness :
  replace " " "_" "lo fi" = replace " " "_" "lo_fi" /\
  let r1 := save_response extract_env [1%nat] "lo fi" fresh in
  let r2 := save_response extract_env [2%nat] "lo_fi" (snd r1) in
  exists path,
    fst r1 = Returned path /\
    fst r2 = Returned path /\
    read_file path (ExtractRun.files (snd r2)) = Some [2%nat] /\
    length (ExtractRun.files (snd r2)) = S (S (length (ExtractRun.files fresh))).
Proof.
  split; [reflexivity|].
  apply (@save_response_same_name_overwrites nat extract_env
           [1%nat] [2%nat] "lo fi" "lo_fi" fresh);
    reflexivity.
Defined.

(** The command line and the task for the queries [kpop, music]. *)
Lemma main_agrees_with_run_extract_witness :
  let args :=
    {| args_query := "kpop, music";
       args_max_results := 50;
       args_api_key := None |} in
  let m := main extract_env args fresh in
  let r := run_extract extract_env (asking "kpop, music") fresh in
  ExtractRun.files (snd m) = ExtractRun.files (snd r) /\
  events (snd m) = events (snd r) /\
  xcom (snd m) = xcom fresh /\
  fst m = match fst r with
          | Returned _ => Returned 0%Z
          | Raised _ => Returned 1%Z
          | Pending => Pending
          end.
Proof.
  apply (@main_agrees_with_run_extract nat extract_env
           {| args_query := "kpop, music";
              args_max_results := 50;
              args_api_key := None |}
           (asking "kpop, music") fresh);
    reflexivity.
Defined.

End ExtractMore.

(** ** More on the Sink Writer *)

Module LoadMore.

Import Py PyFacts Load LoadSpec.

Section Statements.

Variable env : Env.

Implicit Types (w : World) (engine : Engine) (path if_exists : string).

(** *** [ensure_table] *)

(** [ensure_table] on a server that runs its DDL, as PostgreSQL does:
    it goes through and leaves a table behind, the empty table with the
    primary key when there was none; it never touches the rows or the
    schema of a table that exists, nor the staging table; calling it again
    changes nothing in the database.  On a server that rejects the DDL, as
    SQLite does, it raises what the server raises, whether the table
    exists or not; the transaction is rolled back and the database is as it
    was. *)
Theorem ensure_table_is_idempotent engine w :
  let r := ensure_table env engine w in
  (ddl_rejected env engine = None ->
   fst r = inr tt /\
   youtube_videos (database (snd r)) <> None /\
   (youtube_videos (database w) = None ->
    youtube_videos (database (snd r))
    = Some {| schema := Ensured; rows := [] |}) /\
   destination (snd r) = destination w /\
   tmp_youtube_load (database (snd r)) = tmp_youtube_load (database w) /\
   (youtube_videos (database w) <> None -> database (snd r) = database w) /\
   database (snd (ensure_table env engine (snd r))) = database (snd r)) /\
  (forall e, ddl_rejected env engine = Some e -> r = (inl e, rolled_back w)) /\
  (name (dialect engine) = "postgresql"%string -> fst r = inr tt) /\
  (name (dialect engine) = "sqlite"%string ->
   exists e, r = (inl e, rolled_back w)).
Proof.
  cbv zeta. unfold ensure_table, begin, execute_ddl.
  split; [|split; [|split]].
  - intro Hddl. rewrite Hddl.
    unfold create_table_if_not_exists, destination, table_rows.
    destruct (youtube_videos (database w)) as [t|] eqn:Ht;
      cbn [fst snd database youtube_videos tmp_youtube_load rows].
    + rewrite Ht. cbn [snd database].
      repeat split; try reflexivity; try discriminate.
    + repeat split; try reflexivity; try discriminate.
      intro H. exfalso. apply H. reflexivity.
  - intros e Hddl. rewrite Hddl. reflexivity.
  - intro Hd. unfold ddl_rejected. rewrite Hd.
    cbn [String.eqb Ascii.eqb Bool.eqb]. unfold create_table_if_not_exists.
    destruct (youtube_videos (database w)); reflexivity.
  - intro Hd. unfold ddl_rejected. rewrite Hd.
    cbn [String.eqb Ascii.eqb Bool.eqb]. eexists. reflexivity.
Qed.

(** *** One file *)

Lemma load_csv_unreadable path engine if_exists w :
  read_csv env path = None ->
  load_csv env path engine if_exists w = (inl (FileNotFoundError path), w).
Proof. intro H. rewrite load_csv_unfold, H. reflexivity. Qed.

(** A load that raises leaves the database as it was. *)
Lemma load_csv_error_unchanged path engine if_exists w e :
  fst (load_csv env path engine if_exists w) = inl e ->
  database (snd (load_csv env path engine if_exists w)) = database w.
Proof.
  destruct (read_csv env path) as [csv|] eqn:Hread.
  - rewrite (@load_csv_eq env path engine if_exists csv Hread w).
    destruct (load_csv_body _ _ _ _ _); [reflexivity | discriminate].
  - rewrite load_csv_unreadable by exact Hread. reflexivity.
Qed.

(** A load is all or nothing.  Either it raises, and the database, staging
    table included, is exactly as it was; or it returns, and every record
    of the file has a row with its columns in [youtube_videos]. *)
Theorem load_csv_all_or_nothing path engine if_exists w :
  let r := load_csv env path engine if_exists w in
  (exists e, fst r = inl e /\ database (snd r) = database w) \/
  (fst r = inr tt /\
   exists csv,
     read_csv env path = Some csv /\
     forall record, In record csv ->
       exists row,
         In row (destination (snd r)) /\
         cols row = coerce_published_at env (map published_at csv) record).
Proof.
  cbv zeta.
  destruct (fst (load_csv env path engine if_exists w)) as [e|[]] eqn:Hres.
  - left. exists e. split; [reflexivity|].
    apply (load_csv_error_unchanged _ _ _ _ Hres).
  - right. split; [reflexivity|].
    destruct (read_csv env path) as [csv|] eqn:Hread.
    + exists csv. split; [reflexivity|]. intros record Hin.
      apply (@load_csv_keeps_rows env path engine if_exists csv Hread w
               record Hin Hres).
    + rewrite load_csv_unreadable in Hres by exact Hread. discriminate.
Qed.

Lemma upsert_all_keys now proposed : forall rows,
  exists added,
    map key (upsert_all now proposed rows) = map key rows ++ added.
Proof.
  induction proposed as [|r proposed IH]; intros rows.
  - exists []. rewrite app_nil_r. reflexivity.
  - cbn [upsert_all fold_left].
    destruct (IH (upsert_one now r rows)) as (added & Hadded).
    fold (upsert_all now proposed (upsert_one now r rows)). rewrite Hadded.
    rewrite upsert_one_eq. destruct (has_key (video_id r) rows).
    + rewrite map_update_conflicting_keys. exists added. reflexivity.
    + rewrite map_app, <- app_assoc. eexists. reflexivity.
Qed.

Lemma load_csv_keys_grow path engine if_exists w :
  name (dialect engine) = "postgresql"%string \/
  if_exists = "append"%string ->
  exists added,
    map key (destination (snd (load_csv env path engine if_exists w))) =
    map key (destination w) ++ added.
Proof.
  intro Hmode.
  destruct (fst (load_csv env path engine if_exists w)) as [e|[]] eqn:Hres.
  { exists []. unfold destination.
    rewrite (load_csv_error_unchanged _ _ _ _ Hres), app_nil_r.
    reflexivity. }
  destruct (read_csv env path) as [csv|] eqn:Hread.
  2:{ rewrite load_csv_unreadable in Hres by exact Hread. discriminate. }
  rewrite (@load_csv_eq env path engine if_exists csv Hread w) in *.
  destruct (load_csv_body _ _ _ _ _) as [e|db'] eqn:Hbody; [discriminate|].
  cbn [snd]. unfold destination. cbn [database].
  destruct (String.eqb_spec (name (dialect engine)) "postgresql") as [Hd|Hd].
  - destruct (load_csv_body_postgresql _ _ _ _ _ Hd Hbody)
      as (t & rows' & Ht & Hs & Hm & ->).
    unfold table_rows. rewrite Ht. cbn [youtube_videos rows].
    pose proof (insert_on_conflict_do_update_NoDup _ _ _ Hm) as Hnd.
    rewrite insert_on_conflict_do_update_ok in Hm;
      [ | exact Hnd | intros r' _ [] ].
    injection Hm as <-. apply upsert_all_keys.
  - destruct Hmode as [Hpg|Happend]; [contradiction|]. subst if_exists.
    unfold load_csv_body in Hbody.
    destruct (String.eqb_spec (name (dialect engine)) "postgresql");
      [contradiction|].
    unfold to_sql_table in Hbody. cbn [String.eqb Ascii.eqb Bool.eqb] in Hbody.
    unfold table_rows.
    destruct (youtube_videos (database w)) as [t|].
    + destruct (insert_rows _ (schema t) _ (rows t)) as [e|rows'] eqn:Hins;
        [discriminate|].
      injection Hbody as <-. cbn [youtube_videos rows].
      apply insert_rows_appends in Hins. rewrite Hins, map_app.
      eexists. reflexivity.
    + injection Hbody as <-. cbn [youtube_videos rows].
      eexists. reflexivity.
Qed.

Lemma rows_with_key_count k rows :
  length (rows_with_key k rows) =
  length (filter (fun k' => String.eqb k' k) (map key rows)).
Proof.
  unfold rows_with_key. induction rows as [|row rows IH]; [reflexivity|].
  cbn [filter map]. destruct (String.eqb (key row) k); cbn [length];
    rewrite IH; reflexivity.
Qed.

(** Unless it is told to replace the table, a load removes no row: on
    PostgreSQL, and on any dialect with [if_exists] at ["append"], every
    [video_id] has at least as many rows in [youtube_videos] after the
    load as it had before, and a [video_id] that was in the table still is,
    whether the load returns or raises. *)
Theorem load_csv_keeps_existing_keys path engine if_exists w k :
  name (dialect engine) = "postgresql"%string \/
  if_exists = "append"%string ->
  let after := destination (snd (load_csv env path engine if_exists w)) in
  (length (rows_with_key k (destination w))
   <= length (rows_with_key k after))%nat /\
  (has_key k (destination w) = true -> has_key k after = true).
Proof.
  intros Hmode after.
  destruct (@load_csv_keys_grow path engine if_exists w Hmode)
    as (added & Hkeys).
  fold after in Hkeys. split.
  - rewrite !rows_with_key_count, Hkeys, filter_app, length_app. lia.
  - intro Hk. apply has_key_In. rewrite Hkeys. apply in_or_app. left.
    apply has_key_In. exact Hk.
Qed.

(** The staging table.  A load that returns on PostgreSQL leaves no
    [_tmp_youtube_load], whatever table of that name there was before; on
    any other dialect the load does not touch it. *)
Theorem staging_table_is_discarded path engine if_exists w :
  let r := load_csv env path engine if_exists w in
  (name (dialect engine) = "postgresql"%string ->
   fst r = inr tt ->
   tmp_youtube_load (database (snd r)) = None) /\
  (name (dialect engine) <> "postgresql"%string ->
   tmp_youtube_load (database (snd r)) = tmp_youtube_load (database w)).
Proof.
  cbv zeta. split.
  - intros Hd Hres.
    destruct (read_csv env path) as [csv|] eqn:Hread.
    2:{ rewrite load_csv_unreadable in Hres by exact Hread. discriminate. }
    rewrite (@load_csv_eq env path engine if_exists csv Hread w) in *.
    destruct (load_csv_body _ _ _ _ _) as [e|db'] eqn:Hbody; [discriminate|].
    destruct (load_csv_body_postgresql _ _ _ _ _ Hd Hbody)
      as (t & rows' & _ & _ & _ & ->).
    reflexivity.
  - intros Hd.
    destruct (read_csv env path) as [csv|] eqn:Hread.
    2:{ rewrite load_csv_unreadable by exact Hread. reflexivity. }
    rewrite (@load_csv_eq env path engine if_exists csv Hread w).
    destruct (load_csv_body _ _ _ _ _) as [e|db'] eqn:Hbody; [reflexivity|].
    cbn [snd database]. unfold load_csv_body in Hbody.
    destruct (String.eqb_spec (name (dialect engine)) "postgresql");
      [contradiction|].
    unfold to_sql_table in Hbody.
    destruct (String.eqb if_exists "append").
    + destruct (youtube_videos (database w)) as [t|].
      * destruct (insert_rows _ _ _ _); [discriminate|].
        injection Hbody as <-. reflexivity.
      * injection Hbody as <-. reflexivity.
    + destruct (String.eqb if_exists "replace");
        [injection Hbody as <-; reflexivity|].
      destruct (String.eqb if_exists "fail"); [|discriminate].
      destruct (youtube_videos (database w)); [discriminate|].
      injection Hbody as <-. reflexivity.
Qed.

(** On PostgreSQL [if_exists] is never looked at; elsewhere ["replace"]
    throws away the table and everything loaded before: what is left is a
    table without primary key and without [loaded_at] that holds the rows
    of the file and nothing else. *)
Theorem if_exists_matters_off_postgresql_only path engine if_exists w csv :
  read_csv env path = Some csv ->
  (name (dialect engine) = "postgresql"%string ->
   load_csv env path engine if_exists w =
   load_csv env path engine "append" w) /\
  (name (dialect engine) <> "postgresql"%string ->
   let r := load_csv env path engine "replace" w in
   fst r = inr tt /\
   youtube_videos (database (snd r)) =
   Some {| schema := Inferred;
           rows :=
             map insert_plain
               (map (coerce_published_at env (map published_at csv)) csv) |}).
Proof.
  intro Hread. split.
  - intro Hd. rewrite !load_csv_unfold. unfold load_csv_body.
    rewrite Hd. reflexivity.
  - intro Hd. cbv zeta.
    rewrite (@load_csv_eq env path engine "replace" csv Hread w).
    unfold load_csv_body.
    destruct (String.eqb_spec (name (dialect engine)) "postgresql");
      [contradiction|].
    unfold to_sql_table. cbn. split; reflexivity.
Qed.

(** On PostgreSQL a load needs the table of [ensure_table].  Without
    [youtube_videos] it raises (undefined table); with a [youtube_videos]
    that has no primary key it raises (no constraint for ON CONFLICT), and
    [ensure_table] does not repair such a table: the load raises the same
    after it. *)
Theorem load_csv_postgresql_needs_ensured_table path engine if_exists w csv :
  name (dialect engine) = "postgresql"%string ->
  read_csv env path = Some csv ->
  (youtube_videos (database w) = None ->
   fst (load_csv env path engine if_exists w) = inl (UndefinedTable TABLE_NAME))
  /\
  (forall t,
     youtube_videos (database w) = Some t ->
     schema t = Inferred ->
     fst (load_csv env path engine if_exists w) = inl NoArbiterConstraint /\
     fst (load_csv env path engine if_exists
            (snd (ensure_table env engine w))) = inl NoArbiterConstraint).
Proof.
  intros Hd Hread.
  assert (Hbody : forall w',
            fst (load_csv env path engine if_exists w') =
            match merge_sql (clock env (transactions w'))
                    {| youtube_videos := youtube_videos (database w');
                       tmp_youtube_load :=
                         Some (map (coerce_published_at env
                                      (map published_at csv)) csv) |} with
            | inl e => inl e
            | inr db =>
                match drop_temp_table db with
                | inl e => inl e
                | inr _ => inr tt
                end
            end).
  { intro w'. rewrite (@load_csv_eq env path engine if_exists csv Hread w').
    unfold load_csv_body. rewrite Hd. cbn [String.eqb Ascii.eqb Bool.eqb].
    unfold and_then, to_sql_temp_table.
    destruct (merge_sql _ _) as [e|db]; [reflexivity|].
    destruct (drop_temp_table db); reflexivity. }
  split.
  - intro Ht. rewrite Hbody. unfold merge_sql. cbn [youtube_videos].
    rewrite Ht. reflexivity.
  - intros t Ht Hs. split.
    + rewrite Hbody. unfold merge_sql.
      cbn [youtube_videos tmp_youtube_load]. rewrite Ht, Hs. reflexivity.
    + rewrite Hbody. unfold ensure_table, begin, execute_ddl, ddl_rejected.
      rewrite Hd. cbn [String.eqb Ascii.eqb Bool.eqb].
      unfold create_table_if_not_exists.
      rewrite Ht. cbn [snd database]. unfold merge_sql.
      cbn [youtube_videos tmp_youtube_load]. rewrite Ht, Hs. reflexivity.
Qed.

(** *** Two files *)

(** The later file wins.  On PostgreSQL, two files loaded one after the
    other that both carry a [video_id]: the key has one row after each
    load; after the second load the row carries the columns of the record
    of the second file, and the [loaded_at] of the first load. *)
Theorem later_file_wins path1 path2 engine if_exists w t csv1 csv2 r1 r2 :
  name (dialect engine) = "postgresql"%string ->
  read_csv env path1 = Some csv1 ->
  read_csv env path2 = Some csv2 ->
  youtube_videos (database w) = Some t ->
  schema t = Ensured ->
  NoDup (map key (rows t)) ->
  NoDup (map video_id csv1) ->
  NoDup (map video_id csv2) ->
  In r1 csv1 -> In r2 csv2 -> video_id r1 = video_id r2 ->
  let first := load_csv env path1 engine if_exists w in
  let second := load_csv env path2 engine if_exists (snd first) in
  fst first = inr tt /\
  fst second = inr tt /\
  exists row1,
    rows_with_key (video_id r1) (destination (snd first)) = [row1] /\
    cols row1 = coerce_published_at env (map published_at csv1) r1 /\
    rows_with_key (video_id r1) (destination (snd second)) =
    [{| cols := coerce_published_at env (map published_at csv2) r2;
        loaded_at := loaded_at row1 |}].
Proof.
  intros Hd Hread1 Hread2 Ht Hs Hrows Hnd1 Hnd2 Hin1 Hin2 Hkey first second.
  unfold second, first.
  rewrite (@load_csv_postgresql_ok env path1 engine if_exists csv1 Hd Hread1
             w t Ht Hs Hnd1).
  cbn [fst snd].
  set (df1 := map (coerce_published_at env (map published_at csv1)) csv1).
  set (rows1 := upsert_all (clock env (transactions w)) df1 (rows t)).
  rewrite (@load_csv_postgresql_ok env path2 engine if_exists csv2 Hd Hread2
             (committed w rows1) {| schema := Ensured; rows := rows1 |}
             eq_refl eq_refl Hnd2).
  cbn [fst snd]. unfold destination, table_rows, committed.
  cbn [database youtube_videos rows transactions].
  split; [reflexivity|]. split; [reflexivity|].
  assert (Hnd1' : NoDup (map video_id df1))
    by (unfold df1; rewrite map_map; exact Hnd1).
  assert (Hnd2' : NoDup (map video_id
                           (map (coerce_published_at env
                                   (map published_at csv2)) csv2)))
    by (rewrite map_map; exact Hnd2).
  assert (Hrows1 : NoDup (map key rows1))
    by (apply upsert_all_NoDup; exact Hrows).
  assert (Hin1' : In (coerce_published_at env (map published_at csv1) r1) df1)
    by (apply in_map; exact Hin1).
  assert (Hin2' : In (coerce_published_at env (map published_at csv2) r2)
                    (map (coerce_published_at env (map published_at csv2))
                       csv2))
    by (apply in_map; exact Hin2).
  assert (Hone : exists row1,
            rows_with_key (video_id r1) rows1 = [row1] /\
            cols row1 = coerce_published_at env (map published_at csv1) r1).
  { destruct (@upsert_all_row (clock env (transactions w)) _ (rows t) _
                Hrows Hnd1' Hin1') as [[_ Hnew]|(old & _ & Hnew)];
      eexists; (split; [exact Hnew | reflexivity]). }
  destruct Hone as (row1 & Hrow1 & Hcols1).
  exists row1. split; [exact Hrow1|]. split; [exact Hcols1|].
  destruct (@upsert_all_row (clock env (S (transactions w))) _ rows1 _
              Hrows1 Hnd2' Hin2') as [[Hnone _]|(old & Hold & Hnew)].
  - change (video_id (coerce_published_at env (map published_at csv2) r2))
      with (video_id r2) in Hnone.
    rewrite <- Hkey, Hrow1 in Hnone. discriminate.
  - change (video_id (coerce_published_at env (map published_at csv2) r2))
      with (video_id r2) in Hold, Hnew.
    rewrite <- Hkey in Hold, Hnew. rewrite Hrow1 in Hold.
    injection Hold as <-. exact Hnew.
Qed.

(** *** The task and the command line *)

Lemma for_each_app {A} (l1 l2 : list A) (body : A -> M unit) : forall w,
  for_each (l1 ++ l2) body w =
  match for_each l1 body w with
  | (inr _, w1) => for_each l2 body w1
  | (inl e, w1) => (inl e, w1)
  end.
Proof.
  induction l1 as [|x l1 IH]; intros w; [reflexivity|].
  cbn [app for_each]. unfold bind.
  destruct (body x w) as [[e|[]] w1]; [reflexivity | apply IH].
Qed.

(** The files of one run are not one transaction.  Once [ensure_table]
    has gone through, when the load of a file raises, [run_load] raises
    the same exception at once: the files before it stay loaded, the
    failing file leaves no trace in the database, and the files after it
    are not looked at.  When the server rejects the DDL of [ensure_table],
    [run_load] raises what the server raises before it has looked at any
    file, and the database is as it was. *)
Theorem run_load_stops_at_first_failure
    env_DB_URL context w db_url engine before bad rest e w0 w1 w2 :
  or_else (params_db_url context) env_DB_URL = Some db_url ->
  truthy (Some db_url) = true ->
  ti_xcom_pull context "processed_paths" (params_upstream_task_id context)
    = Some (before ++ bad :: rest) ->
  create_engine env db_url = Some engine ->
  let connected := snd (get_engine env db_url w) in
  (ensure_table env engine connected = (inr tt, w0) ->
   for_each before (fun csv_path => load_csv env csv_path engine "append") w0
     = (inr tt, w1) ->
   load_csv env bad engine "append" w1 = (inl e, w2) ->
   run_load env env_DB_URL context w = (inl e, w2) /\
   database w2 = database w1) /\
  (forall e0,
     ddl_rejected env engine = Some e0 ->
     run_load env env_DB_URL context w = (inl e0, rolled_back connected) /\
     database (rolled_back connected) = database w).
Proof.
  intros Hurl Htruthy Hpaths Hengine connected.
  assert (Hne : nonempty (before ++ bad :: rest) = true)
    by (destruct before; reflexivity).
  assert (Hrun : run_load env env_DB_URL context w =
                 match ensure_table env engine connected with
                 | (inl e', w') => (inl e', w')
                 | (inr _, w') =>
                     for_each (before ++ bad :: rest)
                       (fun csv_path => load_csv env csv_path engine "append")
                       w'
                 end).
  { unfold run_load. rewrite Hurl, Htruthy, Hpaths. cbn [negb].
    rewrite Hne. cbn [negb]. unfold bind at 1.
    unfold connected, get_engine. rewrite Hengine. cbn [snd].
    unfold bind at 1.
    destruct (ensure_table env engine _) as [[e'|[]] w']; reflexivity. }
  split.
  - intros Hensured Hbefore Hbad. split.
    + rewrite Hrun, Hensured, for_each_app, Hbefore.
      cbn [for_each]. unfold bind. rewrite Hbad. reflexivity.
    + pose proof (@load_csv_error_unchanged bad engine "append" w1 e) as H.
      rewrite Hbad in H. apply H. reflexivity.
  - intros e0 Hddl. split.
    + rewrite Hrun. unfold ensure_table, begin, execute_ddl.
      rewrite Hddl. reflexivity.
    + unfold connected, get_engine. rewrite Hengine. reflexivity.
Qed.

(** A connection that cannot be established is fatal and is not retried:
    [run_load] raises after one connection attempt, without having begun
    any transaction. *)
Theorem run_load_connection_failure env_DB_URL context w db_url paths :
  or_else (params_db_url context) env_DB_URL = Some db_url ->
  truthy (Some db_url) = true ->
  ti_xcom_pull context "processed_paths" (params_upstream_task_id context)
    = Some paths ->
  paths <> [] ->
  create_engine env db_url = None ->
  run_load env env_DB_URL context w =
  (inl (OperationalError db_url),
   {| database := database w;
      transactions := transactions w;
      journal := journal w ++ [EvConnect db_url] |}).
Proof.
  intros Hurl Htruthy Hpaths Hne Hengine.
  unfold run_load. rewrite Hurl, Htruthy, Hpaths. cbn [negb].
  destruct paths; [congruence|]. cbn [nonempty negb].
  unfold bind, get_engine. rewrite Hengine. reflexivity.
Qed.

(** The command line and the Airflow task are the same load: given the
    same database URL and the same list of files, which is not empty,
    [main] leaves the world exactly as [run_load] does; it ends with
    status 0 when the task returns and lets the same exception escape when
    the task raises, except that a missing URL ends it with status 1
    where the task raises a [RuntimeError]. *)
Theorem main_agrees_with_run_load env_DB_URL args context w :
  params_db_url context = args_db_url args ->
  ti_xcom_pull context "processed_paths" (params_upstream_task_id context)
    = Some (args_inputs args) ->
  args_inputs args <> [] ->
  let m := main env env_DB_URL args w in
  let r := run_load env env_DB_URL context w in
  snd m = snd r /\
  fst m = match fst r with
          | inr _ => inr 0%Z
          | inl e =>
              if truthy (or_else (args_db_url args) env_DB_URL)
              then inl e else inr 1%Z
          end.
Proof.
  intros Hurl Hpaths Hne. cbv zeta. unfold main, run_load.
  rewrite Hurl, Hpaths.
  destruct (or_else (args_db_url args) env_DB_URL) as [db_url|];
    [|split; reflexivity].
  destruct (truthy (Some db_url)) eqn:Htruthy; cbn [negb];
    [|split; reflexivity].
  destruct (args_inputs args) as [|csv_path inputs]; [congruence|].
  cbn [nonempty negb]. unfold bind, ret.
  destruct (get_engine env db_url w) as [[e|engine] w1];
    [split; reflexivity|].
  destruct (ensure_table env engine w1) as [[e|[]] w2];
    [split; reflexivity|].
  destruct (for_each (csv_path :: inputs) _ w2) as [[e|[]] w3];
    split; reflexivity.
Qed.

(** The primary key is kept by every entry point: when [youtube_videos]
    has at most one row per [video_id] before (as far as it is the table
    of [ensure_table]), it has so after [run_load] and after [main],
    however they end. *)
Theorem entry_points_keep_primary_key env_DB_URL args context w :
  primary_key_holds (database w) ->
  primary_key_holds (database (snd (run_load env env_DB_URL context w))) /\
  primary_key_holds (database (snd (main env env_DB_URL args w))).
Proof.
  intro Hinv. split; [apply run_load_primary_key; exact Hinv|].
  unfold main, ret.
  destruct (or_else (args_db_url args) env_DB_URL) as [db_url|];
    [|exact Hinv].
  destruct (negb (truthy (Some db_url))); [exact Hinv|].
  unfold bind, get_engine.
  destruct (create_engine env db_url) as [engine|]; [|exact Hinv].
  pose proof (ensure_table_primary_key env engine
                {| database := database w;
                   transactions := transactions w;
                   journal := journal w ++ [EvConnect db_url] |} Hinv)
    as Hensured.
  destruct (ensure_table env engine _) as [[e|[]] w1];
    cbn [snd] in *; [exact Hensured|].
  pose proof (for_each_load_csv_primary_key env engine (args_inputs args)
                w1 Hensured) as Hloaded.
  destruct (for_each (args_inputs args) _ w1) as [[e|[]] w2];
    cbn [snd] in *; exact Hloaded.
Qed.

End Statements.

(** *** The properties on the sample files *)

Import Samples.

(** [b.csv] over the row of [a.csv]: the key [V1] keeps its row. *)
Lemma load_csv_keeps_existing_keys_witness :
  let after :=
    destination (snd (load_csv sample_env "b.csv" postgresql "replace"
                        loaded_a)) in
  (length (rows_with_key "V1" (destination loaded_a))
   <= length (rows_with_key "V1" after))%nat /\
  (has_key "V1" (destination loaded_a) = true -> has_key "V1" after = true).
Proof.
  apply load_csv_keeps_existing_keys. left. reflexivity.
Defined.

(** A load of [b.csv] on PostgreSQL removes the staging table that was
    left behind; on SQLite it leaves it alone. *)
Lemma staging_table_is_discarded_witness :
  tmp_youtube_load (database littered) <> None /\
  tmp_youtube_load
    (database (snd (load_csv sample_env "b.csv" postgresql "append" littered)))
  = None /\
  tmp_youtube_load
    (database (snd (load_csv sample_env "b.csv" sqlite "append" littered)))
  = tmp_youtube_load (database littered).
Proof.
  split; [discriminate|]. split.
  - apply (@staging_table_is_discarded sample_env "b.csv" postgresql "append"
             littered); reflexivity.
  - apply (@staging_table_is_discarded sample_env "b.csv" sqlite "append"
             littered). discriminate.
Defined.

(** [b.csv] loaded with ["replace"] on SQLite over the table of [a.csv]:
    one row, no [loaded_at]. *)
Lemma if_exists_matters_off_postgresql_only_witness :
  load_csv sample_env "b.csv" postgresql "replace" loaded_a =
  load_csv sample_env "b.csv" postgresql "append" loaded_a /\
  youtube_videos
    (database (snd (load_csv sample_env "b.csv" sqlite "replace" loaded_a)))
  = Some {| schema := Inferred;
            rows := [insert_plain
                       (coerce_published_at sample_env
                          ["2024-01-01T00:00:00Z"%string]
                          (record "V1" "B" "2024-01-01T00:00:00Z"))] |}.
Proof.
  split.
  - apply (@if_exists_matters_off_postgresql_only sample_env "b.csv"
             postgresql "replace" loaded_a
             [record "V1" "B" "2024-01-01T00:00:00Z"] eq_refl).
    reflexivity.
  - apply (@if_exists_matters_off_postgresql_only sample_env "b.csv"
             sqlite "replace" loaded_a
             [record "V1" "B" "2024-01-01T00:00:00Z"] eq_refl).
    discriminate.
Defined.

(** [a.csv] on PostgreSQL without the table, and with a table that
    [to_sql] created. *)
Lemma load_csv_postgresql_needs_ensured_table_witness :
  fst (load_csv sample_env "a.csv" postgresql "append" blank)
  = inl (UndefinedTable TABLE_NAME) /\
  fst (load_csv sample_env "a.csv" postgresql "append"
         (snd (ensure_table sample_env postgresql inferred)))
  = inl NoArbiterConstraint.
Proof.
  split.
  - apply (@load_csv_postgresql_needs_ensured_table sample_env "a.csv"
             postgresql "append" blank
             [record "V1" "A" "2024-01-01T00:00:00Z"] eq_refl eq_refl).
    reflexivity.
  - destruct (@load_csv_postgresql_needs_ensured_table sample_env "a.csv"
                postgresql "append" inferred
                [record "V1" "A" "2024-01-01T00:00:00Z"] eq_refl eq_refl)
      as [_ Hinferred].
    apply (Hinferred {| schema := Inferred; rows := [] |}); reflexivity.
Defined.

(** [a.csv], then [b.csv]: the title is that of [b.csv], [loaded_at] that
    of the load of [a.csv]. *)
Lemma later_file_wins_witness :
  let first := load_csv sample_env "a.csv" postgresql "append" ensured in
  let second := load_csv sample_env "b.csv" postgresql "append" (snd first) in
  fst first = inr tt /\
  fst second = inr tt /\
  exists row1,
    rows_with_key "V1" (destination (snd first)) = [row1] /\
    cols row1 =
      coerce_published_at sample_env ["2024-01-01T00:00:00Z"%string]
        (record "V1" "A" "2024-01-01T00:00:00Z")
    /\
    rows_with_key "V1" (destination (snd second)) =
    [{| cols :=
          coerce_published_at sample_env ["2024-01-01T00:00:00Z"%string]
            (record "V1" "B" "2024-01-01T00:00:00Z");
        loaded_at := loaded_at row1 |}].
Proof.
  apply (@later_file_wins sample_env "a.csv" "b.csv" postgresql "append"
           ensured {| schema := Ensured; rows := [] |}
           [record "V1" "A" "2024-01-01T00:00:00Z"]
           [record "V1" "B" "2024-01-01T00:00:00Z"]
           (record "V1" "A" "2024-01-01T00:00:00Z")
           (record "V1" "B" "2024-01-01T00:00:00Z")
           eq_refl eq_refl eq_refl eq_refl eq_refl);
    try (apply NoDup_one); try (left; reflexivity); try reflexivity;
    constructor.
Defined.

(** Three files, the second of which has a key twice: the first is
    loaded, the third is not. *)
Lemma run_load_stops_at_first_failure_witness :
  let context := context_with (Some ["a.csv"; "twice.csv"; "b.csv"]%string) in
  let r := run_load sample_env None context blank in
  fst r = inl CardinalityViolation /\
  map (fun row => title (cols row)) (destination (snd r)) = ["A"%string].
Proof.
  cbv zeta.
  destruct (@run_load_stops_at_first_failure sample_env None
              (context_with (Some ["a.csv"; "twice.csv"; "b.csv"]%string))
              blank "postgresql://user:pw@db/yt" postgresql
              ["a.csv"%string] "twice.csv" ["b.csv"%string]
              CardinalityViolation
              (snd (ensure_table sample_env postgresql
                      (snd (get_engine sample_env
                              "postgresql://user:pw@db/yt" blank))))
              (snd (load_csv sample_env "a.csv" postgresql "append"
                      (snd (ensure_table sample_env postgresql
                              (snd (get_engine sample_env
                                      "postgresql://user:pw@db/yt" blank))))))
              (snd (run_load sample_env None
                      (context_with
                         (Some ["a.csv"; "twice.csv"; "b.csv"]%string))
                      blank))
              eq_refl eq_refl eq_refl eq_refl)
    as [Hfile _].
  destruct (Hfile eq_refl eq_refl eq_refl) as [Hrun _].
  rewrite Hrun. split; reflexivity.
Defined.

(** [ensure_table] on the blank database: it creates the table on
    PostgreSQL, and raises on SQLite. *)
Lemma ensure_table_is_idempotent_witness :
  ddl_rejected sample_env postgresql = None /\
  ensure_table sample_env postgresql blank = (inr tt, ensured) /\
  database (snd (ensure_table sample_env postgresql ensured))
  = database ensured /\
  exists e, ensure_table sample_env sqlite blank = (inl e, rolled_back blank).
Proof.
  split; [reflexivity|]. split; [reflexivity|].
  destruct (@ensure_table_is_idempotent sample_env postgresql blank)
    as (Hpg & _).
  destruct (Hpg eq_refl) as (_ & _ & _ & _ & _ & _ & Hagain).
  split; [exact Hagain|].
  destruct (@ensure_table_is_idempotent sample_env sqlite blank)
    as (_ & _ & _ & Hsqlite).
  apply Hsqlite. reflexivity.
Defined.

(** A URL that no engine answers. *)
Lemma run_load_connection_failure_witness :
  run_load sample_env None unreachable_context blank =
  (inl (OperationalError "mysql://user:pw@db/yt"),
   {| database := database blank;
      transactions := transactions blank;
      journal := journal blank ++ [EvConnect "mysql://user:pw@db/yt"] |}).
Proof.
  apply (@run_load_connection_failure sample_env None unreachable_context
           blank "mysql://user:pw@db/yt" ["a.csv"%string]);
    try reflexivity.
  discriminate.
Defined.

(** The command line and the task on [a.csv]. *)
Lemma main_agrees_with_run_load_witness :
  let args :=
    {| args_inputs := ["a.csv"%string];
       args_db_url := Some "postgresql://user:pw@db/yt"%string |} in
  let m := main sample_env None args blank in
  let r := run_load sample_env None (context_with (Some ["a.csv"%string]))
             blank in
  snd m = snd r /\ fst m = inr 0%Z.
Proof.
  cbv zeta.
  destruct (@main_agrees_with_run_load sample_env None
              {| args_inputs := ["a.csv"%string];
                 args_db_url := Some "postgresql://user:pw@db/yt"%string |}
              (context_with (Some ["a.csv"%string])) blank
              eq_refl eq_refl) as [Hworld Hstatus].
  - discriminate.
  - split; [exact Hworld | exact Hstatus].
Defined.

(** The blank database has no table, hence no key twice. *)
Lemma entry_points_keep_primary_key_witness :
  primary_key_holds (database blank) /\
  primary_key_holds
    (database (snd (run_load sample_env None
                      (context_with (Some ["a.csv"; "b.csv"]%string)) blank))).
Proof.
  split; [exact I|].
  apply (@entry_points_keep_primary_key sample_env None
           {| args_inputs := []; args_db_url := None |}
           (context_with (Some ["a.csv"; "b.csv"]%string)) blank).
  exact I.
Defined.

End LoadMore.
